(** * MK signal bot: a shallow embedding of [app.py]

    The development follows the layout of the program.

    - [Indicators]: the pure numeric helpers ([calculate_ema],
      [calculate_rsi], [calculate_macd], [calculate_bollinger_bands],
      [calculate_average_volume], [get_heikin_ashi_candles]).
    - [Strategy]: [mk_pro_generate_signal] and
      [analyze_and_generate_signal].
    - [Gateway]: [fetch_twelvedata_candles] with its cache.
    - [Scheduler]: the body of [signal_generation_loop].

    Conventions of the embedding.

    - A Python [float] is a rational in lowest terms ([Qc]); the only
      non-finite value the program builds, [float('inf')] in the RSI, is
      a constructor of its own ([ratio]).
    - A Python exception is a value of [exn]; a function that can raise
      returns an [outcome].
    - Wall-clock instants and durations are integers counting
      microseconds, the resolution of [datetime].
    - The dictionaries [signals] and [TWELVEDATA_CACHE] are finite maps
      keyed by the pair symbol. *)

From Stdlib Require Import QArith Qcanon Qcabs ZArith Lia.
From stdpp Require Import base numbers option list strings gmap sorting.

Local Open Scope Qc_scope.

(** ** Numbers *)

Abbreviation float := Qc.

Definition of_int (z : Z) : float := Qc_of_Z z.
Definition of_nat (n : nat) : float := Qc_of_Z (Z.of_nat n).
Definition decimal (n : Z) (d : positive) : float := Q2Qc (n # d).

Definition fmax (a b : float) : float := if bool_decide (a < b) then b else a.
Definition fmin (a b : float) : float := if bool_decide (b < a) then b else a.
Definition fmax3 (a b c : float) : float := fmax (fmax a b) c.
Definition fmin3 (a b c : float) : float := fmin (fmin a b) c.

(** [sum(xs)]: Python adds from the left, starting at 0. *)
Definition fsum (xs : list float) : float := foldl Qcplus 0 xs.

(** [math.sqrt]: the root truncated to a multiple of 2^-60.  No theorem
    below depends on more than what a concrete run computes with it. *)
Definition sqrt_scale : positive := (2 ^ 60)%positive.
Definition math_sqrt (x : float) : float :=
  let q := this x in
  Q2Qc (Z.sqrt ((Qnum q * Z.pos sqrt_scale * Z.pos sqrt_scale) / Z.pos (Qden q))
        # sqrt_scale).

(** ** Exceptions *)

Inductive exn : Set :=
  | ZeroDivisionError
  | TypeError
  | ValueError
  | IndexError
  | KeyError.

Inductive outcome (A : Type) : Type :=
  | Returns (a : A)
  | Raises (e : exn).
Arguments Returns {A} a.
Arguments Raises {A} e.

Global Instance outcome_ret : MRet outcome := @Returns.
Global Instance outcome_bind : MBind outcome := λ A B k m,
  match m with
  | Returns a => k a
  | Raises e => Raises e
  end.

(** [a / b] on floats raises on a zero divisor. *)
Definition fdiv (a b : float) : outcome float :=
  if bool_decide (b = 0) then Raises ZeroDivisionError else Returns (a / b).

(** [xs[-1 - k]]. *)
Definition index_from_end {A} (xs : list A) (k : nat) : outcome A :=
  match reverse xs !! k with
  | Some x => Returns x
  | None => Raises IndexError
  end.

(** ** Time *)

Abbreviation time := Z (only parsing).
Definition seconds (n : Z) : Z := (n * 1000000)%Z.
Definition minutes (n : Z) : Z := seconds (n * 60).

(** ** Candles *)

Record candle : Type := Candle {
  c_datetime : string;
  c_open : float;
  c_high : float;
  c_low : float;
  c_close : float;
  c_volume : float
}.

(** A Heikin-Ashi candle has no volume. *)
Record ha_candle : Type := HACandle {
  ha_datetime : string;
  ha_open : float;
  ha_high : float;
  ha_low : float;
  ha_close : float
}.

(** * Indicator helpers *)

Module Indicators.

(** [for i in range(period, len(prices))]: one EMA value per remaining
    price, each from the value appended just before. *)
Fixpoint ema_loop (smoothing_factor prev : float) (rest : list float) : list float :=
  match rest with
  | [] => []
  | p :: rest' =>
      let ema := (p * smoothing_factor) + (prev * (1 - smoothing_factor)) in
      ema :: ema_loop smoothing_factor ema rest'
  end.

Definition calculate_ema (prices : list float) (period : nat) : list float :=
  if bool_decide (prices = []) || bool_decide (length prices < period)%nat then []
  else
    let smoothing_factor := of_int 2 / (of_nat period + 1) in
    if bool_decide (0 < period)%nat then
      let sma := fsum (take period prices) / of_nat period in
      sma :: ema_loop smoothing_factor sma (drop period prices)
    else [].

(** The relative strength [rs]: a float or [float('inf')]. *)
Inductive ratio : Type :=
  | Finite (r : float)
  | Infinite.

Definition rs_of (avg_gain avg_loss : float) : ratio :=
  if bool_decide (avg_loss = 0) then
    if bool_decide (0 < avg_gain) then Infinite else Finite 0
  else Finite (avg_gain / avg_loss).

(** [100 - (100 / (1 + rs))]; [100 / inf] is [0.0]. *)
Definition rsi_of (rs : ratio) : outcome float :=
  match rs with
  | Infinite => Returns (of_int 100 - 0)
  | Finite r =>
      q ← fdiv (of_int 100) (1 + r);
      Returns (of_int 100 - q)
  end.

Definition price_changes (prices : list float) : list float :=
  zip_with (λ prev cur, cur - prev) prices (tail prices).

Definition gain_of (change : float) : float :=
  if bool_decide (0 < change) then change else 0.
Definition loss_of (change : float) : float :=
  if bool_decide (0 < change) then 0 else Qcabs change.

(** [for i in range(period, len(gains))]: the Wilder recurrence. *)
Fixpoint rsi_loop (period : nat) (avg_gain avg_loss : float)
    (gains losses : list float) : outcome (list float) :=
  match gains, losses with
  | g :: gains', l :: losses' =>
      let avg_gain' := ((avg_gain * of_int (Z.of_nat period - 1)) + g) / of_nat period in
      let avg_loss' := ((avg_loss * of_int (Z.of_nat period - 1)) + l) / of_nat period in
      rsi ← rsi_of (rs_of avg_gain' avg_loss');
      rest ← rsi_loop period avg_gain' avg_loss' gains' losses';
      Returns (rsi :: rest)
  | _, _ => Returns []
  end.

Definition calculate_rsi (prices : list float) (period : nat) : outcome (list float) :=
  if bool_decide (prices = []) || bool_decide (length prices < period + 1)%nat
  then Returns []
  else
    let gains := gain_of <$> price_changes prices in
    let losses := loss_of <$> price_changes prices in
    if bool_decide (length gains < period)%nat then Returns []
    else
      (avg_gain ← fdiv (fsum (take period gains)) (of_nat period);
       avg_loss ← fdiv (fsum (take period losses)) (of_nat period);
       rsi ← rsi_of (rs_of avg_gain avg_loss);
       rest ← rsi_loop period avg_gain avg_loss
                      (drop period gains) (drop period losses);
       Returns (rsi :: rest)).

(** [[a[len(a) - n + i] - b[len(b) - n + i] for i in range(n)]]: the
    difference of the last [n] values of each list. *)
Definition suffix_difference (n : nat) (a b : list float) : list float :=
  zip_with Qcminus (drop (length a - n) a) (drop (length b - n) b).

Definition calculate_macd (prices : list float)
    (fast_period slow_period signal_period : nat)
    : list float * list float * list float :=
  if bool_decide (length prices < fast_period `max` slow_period + signal_period)%nat
  then ([], [], [])
  else
    let ema_fast := calculate_ema prices fast_period in
    let ema_slow := calculate_ema prices slow_period in
    let min_len_ema := length ema_fast `min` length ema_slow in
    if bool_decide (min_len_ema = 0)%nat then ([], [], [])
    else
      let macd_line := suffix_difference min_len_ema ema_fast ema_slow in
      let signal_line := calculate_ema macd_line signal_period in
      let min_hist_len := length macd_line `min` length signal_line in
      if bool_decide (min_hist_len = 0)%nat then (macd_line, signal_line, [])
      else (macd_line, signal_line,
            suffix_difference min_hist_len macd_line signal_line).

(** One Bollinger window, [prices[i:i+period]]. *)
Definition bollinger_at (prices : list float) (period : nat) (std_dev : float)
    (i : nat) : outcome (float * float * float) :=
  let window := take period (drop i prices) in
  (sma ← fdiv (fsum window) (of_nat period);
   variance ← fdiv (fsum ((λ x, (x - sma) ^ 2) <$> window)) (of_nat period);
   let current_std_dev := math_sqrt variance in
   Returns (sma + (current_std_dev * std_dev), sma,
            sma - (current_std_dev * std_dev))).

Fixpoint bollinger_loop (prices : list float) (period : nat) (std_dev : float)
    (starts : list nat) : outcome (list float * list float * list float) :=
  match starts with
  | [] => Returns ([], [], [])
  | i :: starts' =>
      '(u, m, l) ← bollinger_at prices period std_dev i;
      '(us, ms, ls) ← bollinger_loop prices period std_dev starts';
      Returns (u :: us, m :: ms, l :: ls)
  end.

Definition calculate_bollinger_bands (prices : list float) (period : nat)
    (std_dev : float) : outcome (list float * list float * list float) :=
  if bool_decide (prices = []) || bool_decide (length prices < period)%nat
  then Returns ([], [], [])
  else bollinger_loop prices period std_dev (seq 0 (length prices - period + 1)).

(** [volumes[-lookback_period:]]; a lookback of 0 slices from index 0. *)
Definition trailing (lookback_period : nat) (volumes : list float) : list float :=
  if bool_decide (lookback_period = 0)%nat then volumes
  else drop (length volumes - lookback_period) volumes.

(** The return statement divides the trailing sum by that same sum. *)
Definition calculate_average_volume (volumes : list float)
    (lookback_period : nat) : float :=
  if bool_decide (length volumes < lookback_period)%nat then 0
  else if bool_decide (0 < fsum (trailing lookback_period volumes))
       then fsum (trailing lookback_period volumes)
            / fsum (trailing lookback_period volumes)
       else 0.

Definition default_lookback_period : nat := 10.

Definition ha_of (ha_open : float) (c : candle) : ha_candle :=
  let ha_close := (c_open c + c_high c + c_low c + c_close c) / of_int 4 in
  {| ha_datetime := c_datetime c;
     ha_open := ha_open;
     ha_high := fmax3 (c_high c) ha_open ha_close;
     ha_low := fmin3 (c_low c) ha_open ha_close;
     ha_close := ha_close |}.

(** [for i in range(1, len(candles))]: each open is the midpoint of the
    Heikin-Ashi candle appended just before. *)
Fixpoint ha_loop (prev : ha_candle) (rest : list candle) : list ha_candle :=
  match rest with
  | [] => []
  | c :: rest' =>
      let h := ha_of ((ha_open prev + ha_close prev) / of_int 2) c in
      h :: ha_loop h rest'
  end.

Definition get_heikin_ashi_candles (candles : list candle) : list ha_candle :=
  match candles with
  | [] => []
  | first_candle :: rest =>
      let h := ha_of ((c_open first_candle + c_close first_candle) / of_int 2)
                 first_candle in
      h :: ha_loop h rest
  end.

End Indicators.

(** * The decision engine *)

Module Strategy.
Import Indicators.

Inductive direction : Set := UP | DOWN | NONE.

(** The confidence labels: ["N/A"], ["LOW"], ["MEDIUM"], ["HIGH"] and the
    fourth entry of the ranking table, ["VERY HIGH (100000% SURE)"]. *)
Inductive confidence : Set := CONF_NA | LOW | MEDIUM | HIGH | VERY_HIGH.

(** The [result] strings of a signal record. *)
Inductive result : Set :=
  | NoSignal                  (* "No Signal" *)
  | Waiting                   (* "⏳ WAITING" *)
  | Win                       (* "✅ WIN" *)
  | Loss                      (* "❌ LOSS" *)
  | DataError                 (* "Data Error" *)
  | DataErrorEntryMissing     (* "Data Error (Entry price missing for result check)" *)
  | DataErrorNoExpiryCandle   (* "Data Error (Could not fetch expiry candle for result)" *)
  | NoDirection.              (* "N/A (No Direction)" *)

Global Instance direction_eq_dec : EqDecision direction.
Proof. solve_decision. Defined.
Global Instance confidence_eq_dec : EqDecision confidence.
Proof. solve_decision. Defined.
Global Instance result_eq_dec : EqDecision result.
Proof. solve_decision. Defined.

(** The reason texts, one constructor per message; the numbers are the
    ones the message formats. *)
Inductive reason : Type :=
  | CautionLowBBWidth (pct : float)
  | CautionLowBBWidthLimited (pct : float)
  | FilteredWeakBody (pct : float)
  | BullEMA
  | BullMACD
  | BullRSI (rsi : float)
  | BullBB (close upper : float)
  | BullHA
  | BearEMA
  | BearMACD
  | BearRSI (rsi : float)
  | BearBB (close lower : float)
  | BearHA
  | VolumeSpike (volume avg_volume : float)
  | Skipped (bull bear : nat)
  | NotEnoughData
  | NoSignalYet
  | PreviousResultDisplayed
  | RestPeriodEnded
  | CouldNotFetch
  | ResultNote (real : result) (forced : bool).

(** The dictionary [strategy_data] handed to the strategy.  The entries
    the strategy tests against [None] before use are options. *)
Record strategy_data : Type := StrategyData {
  close_price : float;
  ema10 : float;
  ema30 : float;
  rsi : option float;
  macd_line : float;
  signal_line : float;
  bb_upper : float;
  bb_lower : float;
  volume : float;
  avg_volume : float;
  current_candle_open : float;
  current_candle_high : float;
  current_candle_low : float;
  current_candle_close : float;
  current_candle_body_percentage : float;
  latest_histogram : option float;
  prev_histogram : option float;
  prev_prev_histogram : option float;
  ha_current_candle : option ha_candle;
  ha_prev_candle : option ha_candle
}.

(** The dictionary the strategy returns (its ["reason"] entry is the
    joined text of [reasons_list]). *)
Record strategy_output : Type := StrategyOutput {
  signal : direction;
  so_confidence : confidence;
  reasons_list : list reason;
  bull_conditions_met : nat;
  bear_conditions_met : nat
}.

Definition CONFIDENCE_THRESHOLD_MEDIUM : float := decimal 50 100.
Definition CONFIDENCE_THRESHOLD_HIGH : float := decimal 70 100.
Definition total_possible_conditions : nat := 6.

(** A condition that holds adds one to the count and its reason to the
    list. *)
Definition condition (holds : bool) (r : reason) : nat * list reason :=
  if holds then (1%nat, [r]%list) else (0%nat, []).

Definition histogram_rising (d : strategy_data) : bool :=
  match latest_histogram d, prev_histogram d, prev_prev_histogram d with
  | Some h, Some h1, Some h2 =>
      bool_decide (h1 < h) && bool_decide (h2 < h1) && bool_decide (0 < h)
  | _, _, _ => false
  end.

Definition histogram_falling (d : strategy_data) : bool :=
  match latest_histogram d, prev_histogram d, prev_prev_histogram d with
  | Some h, Some h1, Some h2 =>
      bool_decide (h < h1) && bool_decide (h1 < h2) && bool_decide (h < 0)
  | _, _, _ => false
  end.

Definition rsi_above (d : strategy_data) (level : float) : bool :=
  match rsi d with Some r => bool_decide (level < r) | None => false end.
Definition rsi_below (d : strategy_data) (level : float) : bool :=
  match rsi d with Some r => bool_decide (r < level) | None => false end.

Definition volume_spike (d : strategy_data) : bool :=
  bool_decide (0 < avg_volume d)
  && bool_decide (decimal 15 10 * avg_volume d < volume d).

Definition ha_clean_green (d : strategy_data) : bool :=
  match ha_current_candle d, ha_prev_candle d with
  | Some cur, Some prev =>
      bool_decide (ha_open cur < ha_close cur) && bool_decide (ha_low cur = ha_open cur)
      && bool_decide (ha_open prev < ha_close prev)
      && bool_decide (ha_low prev = ha_open prev)
  | _, _ => false
  end.

Definition ha_clean_red (d : strategy_data) : bool :=
  match ha_current_candle d, ha_prev_candle d with
  | Some cur, Some prev =>
      bool_decide (ha_close cur < ha_open cur) && bool_decide (ha_high cur = ha_open cur)
      && bool_decide (ha_close prev < ha_open prev)
      && bool_decide (ha_high prev = ha_open prev)
  | _, _ => false
  end.

(** The six bullish tests, in the order of the source. *)
Definition bull_conditions (d : strategy_data) : list (nat * list reason) :=
  [ condition (bool_decide (ema30 d < ema10 d)) BullEMA;
    condition (histogram_rising d) BullMACD;
    condition (rsi_above d (of_int 63))
      (BullRSI (default 0 (rsi d)));
    condition (volume_spike d) (VolumeSpike (volume d) (avg_volume d));
    condition (bool_decide (bb_upper d < current_candle_close d)
               && bool_decide (of_int 45 ≤ current_candle_body_percentage d))
      (BullBB (current_candle_close d) (bb_upper d));
    condition (ha_clean_green d) BullHA ].

(** The six bearish tests; the fourth is the same volume test. *)
Definition bear_conditions (d : strategy_data) : list (nat * list reason) :=
  [ condition (bool_decide (ema10 d < ema30 d)) BearEMA;
    condition (histogram_falling d) BearMACD;
    condition (rsi_below d (of_int 37))
      (BearRSI (default 0 (rsi d)));
    condition (volume_spike d) (VolumeSpike (volume d) (avg_volume d));
    condition (bool_decide (current_candle_close d < bb_lower d)
               && bool_decide (of_int 45 ≤ current_candle_body_percentage d))
      (BearBB (current_candle_close d) (bb_lower d));
    condition (ha_clean_red d) BearHA ].

Definition conditions_met (cs : list (nat * list reason)) : nat :=
  foldl (λ n c, n + c.1)%nat 0%nat cs.
Definition reasons_of (cs : list (nat * list reason)) : list reason :=
  cs ≫= snd.

Definition tier_of (score : float) : confidence :=
  if bool_decide (CONFIDENCE_THRESHOLD_HIGH ≤ score) then HIGH
  else if bool_decide (CONFIDENCE_THRESHOLD_MEDIUM ≤ score) then MEDIUM
  else LOW.

Definition mk_pro_generate_signal (d : strategy_data) : outcome strategy_output :=
  let bb_width := bb_upper d - bb_lower d in
  let reasons :=
    if bool_decide (0 < close_price d)
       && bool_decide ((bb_width / close_price d) * of_int 100 < decimal 5 100)
    then [CautionLowBBWidth ((bb_width / close_price d) * of_int 100)]%list else [] in
  if bool_decide (current_candle_body_percentage d < of_int 45) then
    Returns {| signal := NONE; so_confidence := LOW;
               reasons_list := reasons ++ [FilteredWeakBody (current_candle_body_percentage d)]%list;
               bull_conditions_met := 0; bear_conditions_met := 0 |}
  else
    let bull_met := conditions_met (bull_conditions d) in
    let bull_reasons := reasons_of (bull_conditions d) in
    let bear_met := conditions_met (bear_conditions d) in
    let bear_reasons := reasons_of (bear_conditions d) in
    let bull_confidence_score := of_nat bull_met / of_nat total_possible_conditions in
    let bear_confidence_score := of_nat bear_met / of_nat total_possible_conditions in
    let '(final_signal, final_confidence, final_reasons) :=
      if bool_decide (1 ≤ bull_met)%nat
         && bool_decide (decimal 15 100 ≤ bull_confidence_score)
         && bool_decide (bear_met < 1)%nat
      then (UP, tier_of bull_confidence_score, bull_reasons)
      else if bool_decide (1 ≤ bear_met)%nat
              && bool_decide (decimal 15 100 ≤ bear_confidence_score)
              && bool_decide (bull_met < 1)%nat
      then (DOWN, tier_of bear_confidence_score, bear_reasons)
      else (NONE, LOW, reasons ++ [Skipped bull_met bear_met]%list) in
    (* the caution added to a signal divides by the close price again,
       this time without testing it *)
    final_reasons' ←
      (if bool_decide (final_signal ≠ NONE) then
         q ← fdiv (bb_upper d - bb_lower d) (close_price d);
         let bb_width_ratio := q * of_int 100 in
         mret (if bool_decide (bb_width_ratio < decimal 5 100)
               then CautionLowBBWidthLimited bb_width_ratio :: final_reasons
               else final_reasons)
       else mret final_reasons);
    mret {| signal := final_signal; so_confidence := final_confidence;
            reasons_list := final_reasons';
            bull_conditions_met := bull_met; bear_conditions_met := bear_met |}.

(** A signal record, the value of ["current_signal"] (its ["reason"] entry
    is the joined text of [sd_reasons]).  The three display times are
    ["N/A"] or a formatted clock reading. *)
Record signal_data : Type := SignalData {
  sd_pair : string;
  signal_generated_at : option time;
  entry_time : option time;
  expiry_time : option time;
  sd_direction : direction;
  sd_confidence : confidence;
  sd_result : result;
  entry_price : option float;
  expiry_timestamp : time;
  sd_reasons : list reason
}.

(** The record of a pair without a signal. *)
Definition idle_signal (symbol : string) (generated_at : option time)
    (conf : confidence) (res : result) (why : reason) : signal_data :=
  {| sd_pair := symbol; signal_generated_at := generated_at;
     entry_time := None; expiry_time := None;
     sd_direction := NONE; sd_confidence := conf; sd_result := res;
     entry_price := None; expiry_timestamp := 0%Z;
     sd_reasons := [why]%list |}.

Definition MIN_CANDLES : nat := 200.

(** The middle of [analyze_and_generate_signal]: every indicator, its
    latest value, and the dictionary built from them; [None] when one of
    the latest values is missing. *)
Definition prepare_strategy_data (candles : list candle)
    : outcome (option strategy_data) :=
  let close_prices := c_close <$> candles in
  let volumes := c_volume <$> candles in
  current_candle ← index_from_end candles 0;
  prev_candle_data ← index_from_end candles 1;
  let ema10_values := calculate_ema close_prices 10 in
  let ema30_values := calculate_ema close_prices 30 in
  let ema200_values := calculate_ema close_prices 200 in
  rsi_values ← calculate_rsi close_prices 7;
  let '(macd_line_values, signal_line_values, histogram_values) :=
    calculate_macd close_prices 12 26 9 in
  '(bb_upper_values, bb_middle_values, bb_lower_values) ←
    calculate_bollinger_bands close_prices 20 (of_int 2);
  let ha_candles := get_heikin_ashi_candles candles in
  let latest_ema10 := last ema10_values in
  let latest_ema30 := last ema30_values in
  let latest_rsi := last rsi_values in
  let latest_macd_line := last macd_line_values in
  let latest_signal_line := last signal_line_values in
  let latest_bb_upper := last bb_upper_values in
  let latest_bb_lower := last bb_lower_values in
  let latest_histogram := reverse histogram_values !! 0%nat in
  let prev_histogram := reverse histogram_values !! 1%nat in
  let prev_prev_histogram := reverse histogram_values !! 2%nat in
  let ha_current_candle := last ha_candles in
  let ha_prev_candle := reverse ha_candles !! 1%nat in
  current_volume ← index_from_end volumes 0;
  let avg_volume := calculate_average_volume volumes 10 in
  let current_candle_body_size := Qcabs (c_close current_candle - c_open current_candle) in
  let current_candle_total_range := c_high current_candle - c_low current_candle in
  let current_candle_body_percentage :=
    if bool_decide (0 < current_candle_total_range)
    then (current_candle_body_size / current_candle_total_range) * of_int 100
    else 0 in
  match latest_ema10, latest_ema30, latest_rsi, latest_macd_line,
        latest_signal_line, latest_bb_upper, latest_bb_lower,
        latest_histogram, prev_histogram, prev_prev_histogram,
        ha_current_candle, ha_prev_candle with
  | Some e10, Some e30, Some r, Some ml, Some sl, Some bu, Some bl,
    Some h, Some h1, Some h2, Some hc, Some hp =>
      mret (Some
        {| close_price := c_close current_candle;
           ema10 := e10; ema30 := e30; rsi := Some r;
           macd_line := ml; signal_line := sl;
           bb_upper := bu; bb_lower := bl;
           volume := current_volume; avg_volume := avg_volume;
           current_candle_open := c_open current_candle;
           current_candle_high := c_high current_candle;
           current_candle_low := c_low current_candle;
           current_candle_close := c_close current_candle;
           current_candle_body_percentage := current_candle_body_percentage;
           latest_histogram := Some h; prev_histogram := Some h1;
           prev_prev_histogram := Some h2;
           ha_current_candle := Some hc; ha_prev_candle := Some hp |})
  | _, _, _, _, _, _, _, _, _, _, _, _ => mret None
  end.

(** [now] is the reading of [datetime.datetime.now()] taken inside the
    function. *)
Definition analyze_and_generate_signal (now : time) (symbol : string)
    (candles : list candle) : outcome signal_data :=
  if bool_decide (candles = []) || bool_decide (length candles < MIN_CANDLES)%nat
  then mret (idle_signal symbol None LOW NoSignal NotEnoughData)
  else
    prepared ← prepare_strategy_data candles;
    match prepared with
    | None => mret (idle_signal symbol (Some now) CONF_NA NoSignal NotEnoughData)
    | Some d =>
        pro_signal_output ← mk_pro_generate_signal d;
        let direction := signal pro_signal_output in
        let signal_data :=
          {| sd_pair := symbol; signal_generated_at := None;
             entry_time := None; expiry_time := None;
             sd_direction := direction;
             sd_confidence := so_confidence pro_signal_output;
             sd_result := if bool_decide (direction = NONE) then NoSignal else Waiting;
             entry_price := None; expiry_timestamp := 0%Z;
             sd_reasons := reasons_list pro_signal_output |} in
        if bool_decide (direction ≠ NONE) then
          let signal_generation_time := now in
          let entry_time_dt := (signal_generation_time + minutes 1)%Z in
          let expiry_time_dt := (entry_time_dt + minutes 1)%Z in
          mret {| sd_pair := symbol;
                  signal_generated_at := Some signal_generation_time;
                  entry_time := Some entry_time_dt;
                  expiry_time := Some expiry_time_dt;
                  sd_direction := direction;
                  sd_confidence := so_confidence pro_signal_output;
                  sd_result := sd_result signal_data;
                  entry_price := Some (close_price d);
                  expiry_timestamp := expiry_time_dt;
                  sd_reasons := reasons_list pro_signal_output |}
        else mret signal_data
    end.

End Strategy.

(** * The running program: shared state and effects *)

Module Runtime.
Import Strategy.

Record cache_entry : Type := CacheEntry {
  ce_data : list candle;
  ce_timestamp : time
}.

(** The value of [signals[pair]].  The key ["signals_given_count"] is
    absent until the first result and read with a default of 0. *)
Record pair_state : Type := PairState {
  current_signal : signal_data;
  last_trade_finished_at : time;
  last_signal_generated_at : time;
  is_resting : bool;
  rest_end_time : time;
  result_display_end_time : time;
  consecutive_losses : nat;
  forced_wins_given : nat;
  signals_given_count : nat
}.

(** The module-level state and the wall clock.  The clock moves while a
    request is in flight and while the loop sleeps. *)
Record world : Type := World {
  signals : gmap string pair_state;
  TWELVEDATA_CACHE : gmap string cache_entry;
  clock : time
}.

(** A computation reads and writes the world and returns or raises; what
    it wrote before raising stays written. *)
Definition M (A : Type) : Type := world → world * outcome A.

Global Instance M_ret : MRet M := λ A a w, (w, Returns a).
Global Instance M_bind : MBind M := λ A B k m w,
  match m w with
  | (w', Returns a) => k a w'
  | (w', Raises e) => (w', Raises e)
  end.

Definition lift {A} (o : outcome A) : M A := λ w, (w, o).

(** [try: body except Exception: handler]. *)
Definition try_except (body : M unit) (handler : exn → M unit) : M unit := λ w,
  match body w with
  | (w', Returns _) => (w', Returns ())
  | (w', Raises e) => handler e w'
  end.

(** [for x in xs: body(x)]. *)
Fixpoint for_each {A} (xs : list A) (body : A → M unit) : M unit :=
  match xs with
  | [] => mret ()
  | x :: xs' => body x;; for_each xs' body
  end.

(** A loop that threads a local variable. *)
Fixpoint for_fold {A S} (xs : list A) (acc : S) (body : A → S → M S) : M S :=
  match xs with
  | [] => mret acc
  | x :: xs' => acc' ← body x acc; for_fold xs' acc' body
  end.

Definition datetime_now : M time := λ w, (w, Returns (clock w)).

Definition advance (d : Z) (w : world) : world :=
  {| signals := signals w; TWELVEDATA_CACHE := TWELVEDATA_CACHE w;
     clock := (clock w + 0 `max` d)%Z |}.

Definition time_sleep (secs : Z) : M unit := λ w, (advance (seconds secs) w, Returns ()).

Definition read_signals : M (gmap string pair_state) := λ w, (w, Returns (signals w)).

(** [signals[pair]]. *)
Definition get_pair (pair : string) : M pair_state := λ w,
  match signals w !! pair with
  | Some s => (w, Returns s)
  | None => (w, Raises KeyError)
  end.

(** A block of assignments to entries of [signals[pair]]. *)
Definition update_pair (pair : string) (f : pair_state → pair_state) : M unit := λ w,
  match signals w !! pair with
  | Some s =>
      ({| signals := <[pair := f s]> (signals w);
          TWELVEDATA_CACHE := TWELVEDATA_CACHE w; clock := clock w |}, Returns ())
  | None => (w, Raises KeyError)
  end.

Definition cache_lookup (symbol : string) : M (option cache_entry) := λ w,
  (w, Returns (TWELVEDATA_CACHE w !! symbol)).

Definition cache_store (symbol : string) (e : cache_entry) : M unit := λ w,
  ({| signals := signals w;
      TWELVEDATA_CACHE := <[symbol := e]> (TWELVEDATA_CACHE w);
      clock := clock w |}, Returns ()).

End Runtime.

(** * The market data gateway *)

Module Gateway.
Import Runtime.

(** One entry of a row of the provider: absent or falsy (read as 0.0),
    a text that parses as a number, or a text that does not. *)
Inductive raw_field : Type :=
  | FieldMissing
  | FieldNumber (x : float)
  | FieldGarbage.

Record raw_row : Type := RawRow {
  r_datetime : string;
  r_open : raw_field;
  r_high : raw_field;
  r_low : raw_field;
  r_close : raw_field;
  r_volume : raw_field
}.

(** The decoded body: it has ["values"] (newest row first), or else
    ["message"], or neither. *)
Inductive payload : Type :=
  | Values (rows : list raw_row)
  | Message (text : string)
  | OtherPayload.

(** What [requests.get] and [response.json()] come to: an exception of
    [requests] (HTTP status, connection, timeout), a body that is not
    JSON, or a decoded body. *)
Inductive response : Type :=
  | RequestFailed
  | NotJson
  | Json (body : payload).

Record request : Type := Request {
  rq_symbol : string;
  rq_interval : string;
  rq_outputsize : nat;
  rq_apikey : string
}.

Record exchange : Type := Exchange {
  answer : response;
  latency : Z
}.

Definition CACHE_DURATION_SECONDS : Z := 60.

(** [float(item.get(k, 0.0) or 0.0)]; [None] stands for [ValueError]. *)
Definition parse_field (f : raw_field) : option float :=
  match f with
  | FieldMissing => Some 0
  | FieldNumber x => Some x
  | FieldGarbage => None
  end.

Definition parse_row (item : raw_row) : option candle :=
  open_price ← parse_field (r_open item);
  high_price ← parse_field (r_high item);
  low_price ← parse_field (r_low item);
  close_price ← parse_field (r_close item);
  volume ← parse_field (r_volume item);
  Some {| c_datetime := r_datetime item; c_open := open_price;
          c_high := high_price; c_low := low_price; c_close := close_price;
          c_volume := volume |}.

(** [for item in reversed(data['values'])], skipping the rows that do not
    convert. *)
Definition parse_rows (rows : list raw_row) : list candle :=
  omap parse_row (reverse rows).

Section WithProvider.

(** The provider as seen at a given instant, and the configured keys. *)
Context (network : time → request → exchange) (API_KEYS : list string).

Definition requests_get (rq : request) : M response := λ w,
  let ex := network (clock w) rq in
  (advance (latency ex) w, Returns (answer ex)).

(** [for key in API_KEYS]: the first answer with a usable row is cached
    under the symbol and returned. *)
Fixpoint try_keys (now : time) (symbol interval : string) (outputsize : nat)
    (keys : list string) : M (option (list candle)) :=
  match keys with
  | [] => mret None
  | key :: keys' =>
      resp ← requests_get {| rq_symbol := symbol; rq_interval := interval;
                             rq_outputsize := outputsize; rq_apikey := key |};
      match resp with
      | Json (Values rows) =>
          let candles := parse_rows rows in
          if bool_decide (candles ≠ []) then
            cache_store symbol {| ce_data := candles; ce_timestamp := now |};;
            mret (Some candles)
          else try_keys now symbol interval outputsize keys'
      | _ => try_keys now symbol interval outputsize keys'
      end
  end.

Definition fetch_twelvedata_candles (symbol interval : string) (outputsize : nat)
    : M (option (list candle)) :=
  now ← datetime_now;
  cached ← cache_lookup symbol;
  match cached with
  | Some cached_entry =>
      if bool_decide (now - ce_timestamp cached_entry < seconds CACHE_DURATION_SECONDS)%Z
      then mret (Some (ce_data cached_entry))
      else try_keys now symbol interval outputsize API_KEYS
  | None => try_keys now symbol interval outputsize API_KEYS
  end.

End WithProvider.

Definition default_interval : string := "1min".

End Gateway.

(** * The scheduler *)

Module Scheduler.
Import Strategy Runtime Gateway.

Definition CURRENCY_PAIRS : list string :=
  [ "AUD/USD"; "EUR/JPY"; "EUR/USD"; "GBP/JPY"; "GBP/USD"; "NZD/USD";
    "USD/BDT"; "USD/BRL"; "USD/CAD"; "USD/CHF"; "USD/JPY"; "USD/ZAR" ].

Definition SIGNAL_INTERVAL_MINUTES : Z := 1.
Definition RESTING_PERIOD_MINUTES : Z := 2.
Definition COOLDOWN_AFTER_RESULT_SECONDS : Z := 30.
Definition MAX_ACTIVE_SIGNALS : nat := 4.

Definition initial_pair_state (now : time) (pair : string) : pair_state :=
  {| current_signal := idle_signal pair None CONF_NA NoSignal NoSignalYet;
     last_trade_finished_at := (now - minutes 5)%Z;
     last_signal_generated_at := (now - minutes 2)%Z;
     is_resting := false;
     rest_end_time := now;
     result_display_end_time := now;
     consecutive_losses := 0;
     forced_wins_given := 0;
     signals_given_count := 0 |}.

(** ** The blocks that write to [signals[pair]] *)

Definition with_result (sd : signal_data) (res : result) (note : reason)
    : signal_data :=
  {| sd_pair := sd_pair sd; signal_generated_at := signal_generated_at sd;
     entry_time := entry_time sd; expiry_time := expiry_time sd;
     sd_direction := sd_direction sd; sd_confidence := sd_confidence sd;
     sd_result := res; entry_price := entry_price sd;
     expiry_timestamp := expiry_timestamp sd;
     sd_reasons := sd_reasons sd ++ [note]%list |}.

(** The result manipulation: the displayed result and the two counters
    after a real result. *)
Definition manipulate_result (real_result : result) (s : pair_state)
    : result * nat * nat :=
  if bool_decide (real_result = Loss) then
    let consecutive := S (consecutive_losses s) in
    let forced := 0%nat in
    if bool_decide (4 ≤ consecutive)%nat && bool_decide (forced < 2)%nat
    then (Win, consecutive, S forced)
    else (real_result, consecutive, forced)
  else if bool_decide (real_result = Win) then (real_result, 0%nat, 0%nat)
  else (real_result, 0%nat, 0%nat).

(** The block run when a waiting signal has expired. *)
Definition finalize_result (current_time : time) (real_result : result)
    (s : pair_state) : pair_state :=
  let '(result, consecutive, forced) := manipulate_result real_result s in
  let was_forced := bool_decide (result ≠ real_result) in
  let given :=
    if bool_decide (sd_direction (current_signal s) ≠ NONE)
    then S (signals_given_count s) else signals_given_count s in
  let rest := bool_decide (5 ≤ given)%nat in
  {| current_signal :=
       with_result (current_signal s) result (ResultNote real_result was_forced);
     last_trade_finished_at := current_time;
     last_signal_generated_at := last_signal_generated_at s;
     is_resting := if rest then true else is_resting s;
     rest_end_time :=
       if rest then (current_time + minutes RESTING_PERIOD_MINUTES)%Z
       else rest_end_time s;
     result_display_end_time :=
       (current_time + seconds COOLDOWN_AFTER_RESULT_SECONDS)%Z;
     consecutive_losses := consecutive;
     forced_wins_given := forced;
     signals_given_count := if rest then 0%nat else given |}.

(** The block run when a displayed result has been shown long enough. *)
Definition clear_result (current_time : time) (pair : string) (s : pair_state)
    : pair_state :=
  {| current_signal := idle_signal pair None CONF_NA NoSignal PreviousResultDisplayed;
     last_trade_finished_at := last_trade_finished_at s;
     last_signal_generated_at := current_time;
     is_resting := is_resting s;
     rest_end_time := rest_end_time s;
     result_display_end_time := result_display_end_time s;
     consecutive_losses := consecutive_losses s;
     forced_wins_given := forced_wins_given s;
     signals_given_count := signals_given_count s |}.

(** The block run when the rest period is over. *)
Definition end_rest (current_time : time) (pair : string) (s : pair_state)
    : pair_state :=
  {| current_signal := idle_signal pair None CONF_NA NoSignal RestPeriodEnded;
     last_trade_finished_at := last_trade_finished_at s;
     last_signal_generated_at := current_time;
     is_resting := false;
     rest_end_time := rest_end_time s;
     result_display_end_time := current_time;
     consecutive_losses := 0;
     forced_wins_given := 0;
     signals_given_count := signals_given_count s |}.

(** The block run when the analysis gave no direction. *)
Definition record_no_signal (current_time : time) (new_signal : signal_data)
    (s : pair_state) : pair_state :=
  {| current_signal := new_signal;
     last_trade_finished_at := last_trade_finished_at s;
     last_signal_generated_at := current_time;
     is_resting := is_resting s;
     rest_end_time := rest_end_time s;
     result_display_end_time := result_display_end_time s;
     consecutive_losses := consecutive_losses s;
     forced_wins_given := forced_wins_given s;
     signals_given_count := signals_given_count s |}.

(** The block run when no candles could be fetched for the analysis. *)
Definition record_fetch_failure (now current_time : time) (pair : string)
    (s : pair_state) : pair_state :=
  {| current_signal := idle_signal pair (Some now) CONF_NA DataError CouldNotFetch;
     last_trade_finished_at := last_trade_finished_at s;
     last_signal_generated_at := current_time;
     is_resting := is_resting s;
     rest_end_time := rest_end_time s;
     result_display_end_time := result_display_end_time s;
     consecutive_losses := 0;
     forced_wins_given := 0;
     signals_given_count := signals_given_count s |}.

(** The block run for each selected candidate. *)
Definition activate_signal (now : time) (new_signal : signal_data)
    (s : pair_state) : pair_state :=
  {| current_signal := new_signal;
     last_trade_finished_at := last_trade_finished_at s;
     last_signal_generated_at := now;
     is_resting := is_resting s;
     rest_end_time := rest_end_time s;
     result_display_end_time := result_display_end_time s;
     consecutive_losses := consecutive_losses s;
     forced_wins_given := forced_wins_given s;
     signals_given_count := signals_given_count s |}.

(** The six blocks as the transitions of one pair. *)
Inductive transition : Type :=
  | ResultFinalized (current_time : time) (real_result : result)
  | ResultCleared (current_time : time)
  | RestEnded (current_time : time)
  | NoSignalRecorded (current_time : time) (new_signal : signal_data)
  | FetchFailureRecorded (now current_time : time)
  | SignalActivated (now : time) (new_signal : signal_data).

Definition apply_transition (pair : string) (t : transition) (s : pair_state)
    : pair_state :=
  match t with
  | ResultFinalized current_time real_result => finalize_result current_time real_result s
  | ResultCleared current_time => clear_result current_time pair s
  | RestEnded current_time => end_rest current_time pair s
  | NoSignalRecorded current_time new_signal => record_no_signal current_time new_signal s
  | FetchFailureRecorded now current_time => record_fetch_failure now current_time pair s
  | SignalActivated now new_signal => activate_signal now new_signal s
  end.

Definition transit (pair : string) (t : transition) : M unit :=
  update_pair pair (apply_transition pair t).

(** ** Step 1: results, display cooldown, rest *)

(** The debug line printed before the entry price is tested against
    [None] formats it with [:.4f]. *)
Definition format_4f (x : option float) : outcome unit :=
  match x with
  | Some _ => Returns ()
  | None => Raises TypeError
  end.

(** The real result of an expired signal from the candles fetched for it. *)
Definition determine_result (signal_data : signal_data)
    (latest_candles_for_result : option (list candle)) : outcome result :=
  match latest_candles_for_result with
  | Some ((_ :: _) as candles) =>
      expiry_candle ← index_from_end candles 0;
      let expiry_close := c_close expiry_candle in
      let entry_price_for_result := entry_price signal_data in
      format_4f entry_price_for_result;;
      match entry_price_for_result with
      | None => mret DataErrorEntryMissing
      | Some entry =>
          if bool_decide (sd_direction signal_data = UP) then
            mret (if bool_decide (entry < expiry_close) then Win else Loss)
          else if bool_decide (sd_direction signal_data = DOWN) then
            mret (if bool_decide (expiry_close < entry) then Win else Loss)
          else mret NoDirection
      end
  | _ => mret DataErrorNoExpiryCandle
  end.

Definition displayed (r : result) : bool :=
  bool_decide (r = Win) || bool_decide (r = Loss).

Section WithProvider.

Context (network : time → request → exchange) (API_KEYS : list string).

Definition step1_pair (current_time : time) (pair : string) : M unit :=
  pair_state ← get_pair pair;
  let signal_data := current_signal pair_state in
  if bool_decide (sd_result signal_data = Waiting)
     && bool_decide (0 < expiry_timestamp signal_data)%Z
     && bool_decide (expiry_timestamp signal_data ≤ current_time)%Z
  then
    latest_candles_for_result ←
      fetch_twelvedata_candles network API_KEYS pair default_interval 2;
    real_result ← lift (determine_result signal_data latest_candles_for_result);
    transit pair (ResultFinalized current_time real_result)
  else if displayed (sd_result signal_data)
          && bool_decide (result_display_end_time pair_state ≤ current_time)%Z
  then transit pair (ResultCleared current_time)
  else if is_resting pair_state
          && bool_decide (rest_end_time pair_state ≤ current_time)%Z
  then transit pair (RestEnded current_time)
  else mret ().

(** ** Step 2: candidates *)

(** An entry of [potential_signals_for_this_iteration]. *)
Record potential_signal : Type := PotentialSignal {
  ps_pair : string;
  ps_signal_data : signal_data;
  analysis_time : time;
  bull_conditions : nat;
  bear_conditions : nat;
  confidence_level : nat
}.

(** [new_signal.get("bull_conditions_met", 0)] and its bearish twin: a
    signal record has no such keys, so the default is what is read. *)
Definition get_bull_conditions_met (new_signal : signal_data) : nat := 0.
Definition get_bear_conditions_met (new_signal : signal_data) : nat := 0.

(** [["LOW", "MEDIUM", "HIGH", "VERY HIGH (100000% SURE)"].index(c)]. *)
Definition confidence_index (c : confidence) : outcome nat :=
  match c with
  | LOW => Returns 0%nat
  | MEDIUM => Returns 1%nat
  | HIGH => Returns 2%nat
  | VERY_HIGH => Returns 3%nat
  | CONF_NA => Raises ValueError
  end.

Definition count_waiting (sigs : gmap string pair_state) : nat :=
  size (filter (λ kv, sd_result (current_signal kv.2) = Waiting) sigs).

Definition step2_pair (current_time : time) (active_waiting_signals_count : nat)
    (pair : string) (potential : list potential_signal)
    : M (list potential_signal) :=
  pair_signals_data ← get_pair pair;
  if is_resting pair_signals_data then mret potential
  else if displayed (sd_result (current_signal pair_signals_data))
          && bool_decide (current_time < result_display_end_time pair_signals_data)%Z
  then mret potential
  else if bool_decide (MAX_ACTIVE_SIGNALS ≤ active_waiting_signals_count)%nat
  then mret potential
  else
    let time_since_last_attempt :=
      (current_time - last_signal_generated_at pair_signals_data)%Z in
    if bool_decide (seconds (SIGNAL_INTERVAL_MINUTES * 60) ≤ time_since_last_attempt)%Z
    then
      candles ← fetch_twelvedata_candles network API_KEYS pair default_interval 250;
      match candles with
      | Some ((_ :: _) as candles) =>
          now ← datetime_now;
          new_signal ← lift (analyze_and_generate_signal now pair candles);
          if bool_decide (sd_direction new_signal ≠ NONE) then
            level ← lift (confidence_index (sd_confidence new_signal));
            mret (potential ++
                  [{| ps_pair := pair; ps_signal_data := new_signal;
                      analysis_time := current_time;
                      bull_conditions := get_bull_conditions_met new_signal;
                      bear_conditions := get_bear_conditions_met new_signal;
                      confidence_level := level |}]%list)
          else
            transit pair (NoSignalRecorded current_time new_signal);;
            mret potential
      | _ =>
          now ← datetime_now;
          transit pair (FetchFailureRecorded now current_time);;
          mret potential
      end
    else mret potential.

(** ** Step 3: ranking and activation *)

Definition sort_key (x : potential_signal) : nat * nat * Z :=
  (confidence_level x, bull_conditions x `max` bear_conditions x,
   (- analysis_time x)%Z).

(** Tuples compare entry by entry. *)
Definition key_lt (a b : nat * nat * Z) : bool :=
  let '(a1, a2, a3) := a in
  let '(b1, b2, b3) := b in
  bool_decide (a1 < b1)%nat
  || (bool_decide (a1 = b1)
      && (bool_decide (a2 < b2)%nat
          || (bool_decide (a2 = b2) && bool_decide (a3 < b3)%Z))).

(** [list.sort(key=..., reverse=True)]: descending by key, entries with
    equal keys staying in their order.  [insert_descending x l] puts [x],
    which stood before every entry of [l], into the sorted [l]. *)
Fixpoint insert_descending (x : potential_signal) (l : list potential_signal)
    : list potential_signal :=
  match l with
  | [] => [x]%list
  | y :: l' =>
      if key_lt (sort_key x) (sort_key y) then y :: insert_descending x l'
      else x :: l
  end.

Definition sort_descending (l : list potential_signal) : list potential_signal :=
  foldr insert_descending [] l.

(** The selection loop, with its [break] once the list is full. *)
Fixpoint select_signals (ranked signals_to_activate : list potential_signal)
    : M (list potential_signal) :=
  match ranked with
  | [] => mret signals_to_activate
  | potential_signal_entry :: ranked' =>
      if bool_decide (length signals_to_activate < MAX_ACTIVE_SIGNALS)%nat then
        s ← get_pair (ps_pair potential_signal_entry);
        let current_pair_status := sd_result (current_signal s) in
        if bool_decide (current_pair_status ≠ Waiting) && negb (is_resting s)
        then select_signals ranked' (signals_to_activate ++ [potential_signal_entry]%list)
        else select_signals ranked' signals_to_activate
      else mret signals_to_activate
  end.

Definition activate (signal_entry : potential_signal) : M unit :=
  now ← datetime_now;
  transit (ps_pair signal_entry) (SignalActivated now (ps_signal_data signal_entry)).

(** ** The loop *)

Definition step1 (current_time : time) : M unit :=
  for_each CURRENCY_PAIRS (step1_pair current_time).

Definition step2 (current_time : time) : M (list potential_signal) :=
  sigs ← read_signals;
  let active_waiting_signals_count := count_waiting sigs in
  for_fold CURRENCY_PAIRS []
    (step2_pair current_time active_waiting_signals_count).

Definition step3 (potential : list potential_signal) : M unit :=
  signals_to_activate ← select_signals (sort_descending potential) [];
  for_each signals_to_activate activate.

Definition iteration : M unit :=
  current_time ← datetime_now;
  step1 current_time;;
  potential ← step2 current_time;
  step3 potential;;
  time_sleep 3.

Definition guarded_iteration : M unit :=
  try_except iteration (λ _, time_sleep 10).

Definition initialize : M unit :=
  for_each CURRENCY_PAIRS (λ pair w,
    ({| signals := <[pair := initial_pair_state (clock w) pair]> (signals w);
        TWELVEDATA_CACHE := TWELVEDATA_CACHE w; clock := clock w |}, Returns ())).

(** [while True] unrolled [n] times. *)
Fixpoint iterations (n : nat) : M unit :=
  match n with
  | O => mret ()
  | S n' => guarded_iteration;; iterations n'
  end.

Definition signal_generation_loop (n : nat) : M unit :=
  initialize;; iterations n.

End WithProvider.

Definition start (t0 : time) : world :=
  {| signals := ∅; TWELVEDATA_CACHE := ∅; clock := t0 |}.

End Scheduler.

(** * Notions the specification uses *)

Module Spec.

(** A strictly increasing price series. *)
Fixpoint strictly_increasing (prices : list float) : Prop :=
  match prices with
  | x :: rest =>
      match rest with
      | y :: _ => x < y ∧ strictly_increasing rest
      | [] => True
      end
  | [] => True
  end.

(** The arithmetic mean of a sequence. *)
Definition arithmetic_mean (xs : list float) : float :=
  fsum xs / of_nat (length xs).

(** The selection rule in the words of the specification: a direction
    is selected when its count is at least 1, its score at least 0.15 and
    the opposing count 0. *)
Definition selected (own opposing : nat) : Prop :=
  (1 ≤ own)%nat ∧ decimal 15 100 ≤ of_nat own / of_int 6 ∧ opposing = 0%nat.

(** The tiers in the words of the specification. *)
Definition tier (score : float) : Strategy.confidence :=
  if bool_decide (decimal 70 100 ≤ score) then Strategy.HIGH
  else if bool_decide (decimal 50 100 ≤ score) then Strategy.MEDIUM
  else Strategy.LOW.


(** A real result that is neither a win nor a loss. *)
Definition indeterminate (r : Strategy.result) : Prop :=
  r ≠ Strategy.Win ∧ r ≠ Strategy.Loss.




(** The order the specification gives the candidates: by tier, then by
    the larger condition count, both descending, then by evaluation time
    ascending.  A candidate is given as (tier index, count, time). *)
Definition ranks_before (a b : nat * nat * Z) : Prop :=
  let '(tier_a, count_a, time_a) := a in
  let '(tier_b, count_b, time_b) := b in
  (tier_b < tier_a)%nat
  ∨ (tier_a = tier_b
     ∧ ((count_b < count_a)%nat ∨ (count_a = count_b ∧ (time_a ≤ time_b)%Z))).

Fixpoint ranked_as_claimed (l : list (nat * nat * Z)) : Prop :=
  match l with
  | [] => True
  | a :: rest => Forall (ranks_before a) rest ∧ ranked_as_claimed rest
  end.

End Spec.

(** * Notions for reasoning about the loop *)

Module Hoare.
Import Runtime.

(** A computation keeps a property of [signals]. *)
Definition keeps {A} (I : gmap string pair_state → Prop) (m : M A) : Prop :=
  ∀ w, I (signals w) → I (signals (m w).1).

(** Whatever a computation returns has a property. *)
Definition yields {A} (Q : A → Prop) (m : M A) : Prop :=
  ∀ w a, (m w).2 = Returns a → Q a.

(** Every pair of [signals] has a property. *)
Definition every_pair (P : pair_state → Prop) (sigs : gmap string pair_state) : Prop :=
  ∀ pair s, sigs !! pair = Some s → P s.

(** A candidate as step 2 builds it in a turn that started at
    [current_time]. *)
Definition built_at (current_time : time) (x : Scheduler.potential_signal) : Prop :=
  Scheduler.bull_conditions x = 0%nat ∧ Scheduler.bear_conditions x = 0%nat
  ∧ Scheduler.analysis_time x = current_time.

End Hoare.

(** * Concrete inputs *)

Module Scenarios.
Import Indicators Strategy Runtime Gateway Scheduler.

(** A candle that did not move, and one that opened at its low and
    closed at its high. *)
Definition flat_candle (price volume : Z) : candle :=
  {| c_datetime := ""; c_open := of_int price; c_high := of_int price;
     c_low := of_int price; c_close := of_int price; c_volume := of_int volume |}.

Definition rising_candle (from to volume : Z) : candle :=
  {| c_datetime := ""; c_open := of_int from; c_high := of_int to;
     c_low := of_int from; c_close := of_int to; c_volume := of_int volume |}.

(** 200 flat candles: the body filter rejects the last one. *)
Definition quiet_history : list candle := replicate 200 (flat_candle 100 0).

(** 199 flat candles and a rise from 100 to 110, no volume reported. *)
Definition breakout_history : list candle :=
  replicate 199 (flat_candle 100 0) ++ [rising_candle 100 110 0]%list.

(** 198 flat candles and two rises, the first with a lower wick. *)
Definition strong_history : list candle :=
  replicate 198 (flat_candle 100 0)
  ++ [ {| c_datetime := ""; c_open := of_int 100; c_high := of_int 105;
          c_low := of_int 99; c_close := of_int 105; c_volume := 0 |};
       rising_candle 105 115 0 ]%list.

(** 199 flat candles of volume 100 and a rise from 100 to 110 on a
    volume of 225, twice the mean 112.5 of the last ten volumes. *)
Definition spike_history : list candle :=
  replicate 199 (flat_candle 100 100) ++ [rising_candle 100 110 225]%list.

(** The rows of the provider for a history: every entry present, newest
    row first. *)
Definition to_row (c : candle) : raw_row :=
  {| r_datetime := c_datetime c; r_open := FieldNumber (c_open c);
     r_high := FieldNumber (c_high c); r_low := FieldNumber (c_low c);
     r_close := FieldNumber (c_close c); r_volume := FieldNumber (c_volume c) |}.

Definition rows_of (history : list candle) : list raw_row :=
  reverse (to_row <$> history).

Definition serve (history : list candle) : exchange :=
  {| answer := Json (Values (rows_of history)); latency := 0 |}.

(** 199 flat rows at 100 and a newest row without a ["close"] entry, with
    open 100, high 100 and low 99. *)
Definition rows_without_close : list raw_row :=
  {| r_datetime := ""; r_open := FieldNumber (of_int 100);
     r_high := FieldNumber (of_int 100); r_low := FieldNumber (of_int 99);
     r_close := FieldMissing; r_volume := FieldMissing |}
  :: rows_of (replicate 199 (flat_candle 100 0)).

Definition api_keys : list string := ["demo"]%list.
Definition boot_time : time := seconds 1700000000.

(** The provider of the capacity scenario: during the first minute three
    pairs break out and nine are quiet; afterwards every pair breaks out. *)
Definition capacity_network (t : time) (rq : request) : exchange :=
  if bool_decide (t < boot_time + minutes 1)%Z then
    if bool_decide (rq_symbol rq ∈ take 3 CURRENCY_PAIRS)
    then serve breakout_history else serve quiet_history
  else serve breakout_history.

(** The ranking scenario: the first four pairs break out, the fifth has
    the stronger history, the others are quiet. *)
Definition ranking_history (pair : string) : list candle :=
  if bool_decide (pair ∈ take 4 CURRENCY_PAIRS) then breakout_history
  else if bool_decide (pair = "GBP/USD") then strong_history
  else quiet_history.

Definition ranking_network (t : time) (rq : request) : exchange :=
  serve (ranking_history (rq_symbol rq)).

(** A provider that answers with as many rows as were asked for. *)
Definition honest_network (t : time) (rq : request) : exchange :=
  {| answer := Json (Values (take (rq_outputsize rq) (rows_of breakout_history)));
     latency := 0 |}.

(** The world after [n] turns of the loop. *)
Definition world_after (network : time → request → exchange) (n : nat) : world :=
  (signal_generation_loop network api_keys n (start boot_time)).1.

(** What the strategy decides on a history: direction, confidence and
    the two condition counts. *)
Definition decision_on (history : list candle)
    : option (direction * confidence * nat * nat) :=
  match prepare_strategy_data history with
  | Returns (Some d) =>
      match mk_pro_generate_signal d with
      | Returns out =>
          Some (signal out, so_confidence out,
                bull_conditions_met out, bear_conditions_met out)
      | Raises _ => None
      end
  | _ => None
  end.

(** The larger of the two condition counts the strategy finds. *)
Definition conditions_of (history : list candle) : nat :=
  match decision_on history with
  | Some (_, _, bull, bear) => bull `max` bear
  | None => 0
  end.

(** The candidates of the first turn of the loop under the ranking
    scenario, in the order in which step 3 goes through them. *)
Definition first_ranking : outcome (list potential_signal) :=
  let ranking : M (list potential_signal) :=
    current_time ← datetime_now;
    step1 ranking_network api_keys current_time;;
    potential ← step2 ranking_network api_keys current_time;
    mret (sort_descending potential) in
  (ranking (initialize (start boot_time)).1).2.

(** A ranked candidate as the specification sees it: tier, condition
    count of the strategy, evaluation time. *)
Definition as_specified (x : potential_signal) : nat * nat * Z :=
  (confidence_level x, conditions_of (ranking_history (ps_pair x)), analysis_time x).

(** A pair whose signal is waiting, as the analysis of [breakout_history]
    at [boot_time] leaves it, and the same with the entry price blanked. *)
Definition waiting_signal (entry : option float) : signal_data :=
  {| sd_pair := "EUR/USD"; signal_generated_at := Some boot_time;
     entry_time := Some (boot_time + minutes 1)%Z;
     expiry_time := Some (boot_time + minutes 2)%Z;
     sd_direction := UP; sd_confidence := MEDIUM; sd_result := Waiting;
     entry_price := entry; expiry_timestamp := (boot_time + minutes 2)%Z;
     sd_reasons := [BullEMA]%list |}.







Definition shown (w : world) (pair : string) : option result :=
  (λ s, sd_result (current_signal s)) <$> signals w !! pair.

End Scenarios.

From Stdlib Require Import Lqa.

(** * The candle classifier *)

Module Patterns.

(** The three answers of [get_candle_type]. *)
Inductive candle_type : Set := bullish_clean | bearish_clean | neutral.

Global Instance candle_type_eq_dec : EqDecision candle_type.
Proof. solve_decision. Defined.

(** [candle_data] is a candle as the gateway builds it, its four prices
    floats, so that [float(...)] changes nothing. *)
Definition get_candle_type (candle_data : candle) : candle_type :=
  let open_price := c_open candle_data in
  let close_price := c_close candle_data in
  let high_price := c_high candle_data in
  let low_price := c_low candle_data in
  let body_size := Qcabs (close_price - open_price) in
  let total_range := high_price - low_price in
  if bool_decide (total_range = 0) then neutral
  else
    let body_ratio := body_size / total_range in
    if bool_decide (open_price < close_price)
       && bool_decide (decimal 6 10 ≤ body_ratio)
    then bullish_clean
    else if bool_decide (close_price < open_price)
            && bool_decide (decimal 6 10 ≤ body_ratio)
    then bearish_clean
    else neutral.

End Patterns.

(** * Notions for the properties of the indicators *)

Module Windows.

(** [prices[i:i+period]]. *)
Definition window (prices : list float) (period i : nat) : list float :=
  take period (drop i prices).

(** The population standard deviation of a window, with the root of the
    model. *)
Definition deviation (xs : list float) : float :=
  math_sqrt (fsum ((λ x, (x - Spec.arithmetic_mean xs) ^ 2) <$> xs)
             / of_nat (length xs)).

(** A Heikin-Ashi candle whose open and close lie within its range. *)
Definition well_formed (h : ha_candle) : Prop :=
  ha_low h ≤ ha_open h ∧ ha_open h ≤ ha_high h
  ∧ ha_low h ≤ ha_close h ∧ ha_close h ≤ ha_high h.

(** What one Heikin-Ashi candle has of the candle it is made from. *)
Definition made_from (c : candle) (h : ha_candle) : Prop :=
  ha_datetime h = c_datetime c
  ∧ ha_close h = (c_open c + c_high c + c_low c + c_close c) / of_int 4
  ∧ ha_low h ≤ c_low c ∧ c_high c ≤ ha_high h
  ∧ well_formed h.

End Windows.

(** * Notions for the properties of the analysis *)

Module Analysis.
Import Strategy.

(** What the analysis hands to the strategy for a history: the close and
    the volume of the newest candle, an RSI between 0 and 100, Bollinger
    bands in their order, the average volume of the helper, and a body
    percentage that is not negative. *)
Definition prepared_from (candles : list candle) (d : strategy_data) : Prop :=
  ∃ cur, last candles = Some cur
    ∧ close_price d = c_close cur
    ∧ volume d = c_volume cur
    ∧ (∃ r, rsi d = Some r ∧ 0 ≤ r ∧ r ≤ of_int 100)
    ∧ bb_lower d ≤ bb_upper d
    ∧ (avg_volume d = 0 ∨ avg_volume d = 1)
    ∧ 0 ≤ current_candle_body_percentage d.

(** The tier the strategy gives a direction with [n] conditions. *)
Definition tier_for (n : nat) : confidence :=
  if bool_decide (5 ≤ n)%nat then HIGH
  else if bool_decide (3 ≤ n)%nat then MEDIUM else LOW.

End Analysis.

(** * Notions for the properties of the gateway *)

Module Provider.
Import Runtime Gateway.


(** The symbol has a cache entry younger than the cache duration. *)
Definition fresh (w : world) (symbol : string) : Prop :=
  ∃ e, TWELVEDATA_CACHE w !! symbol = Some e
    ∧ (clock w - ce_timestamp e < seconds CACHE_DURATION_SECONDS)%Z.

(** The five numeric entries of a row. *)
Definition fields (r : raw_row) : list raw_field :=
  [r_open r; r_high r; r_low r; r_close r; r_volume r].

End Provider.

(** * Notions for the properties of the scheduler *)

Module Board.
Import Strategy Runtime Gateway Scheduler.

(** Every pair of the list has its entry in [signals]. *)
Definition all_pairs_known (sigs : gmap string pair_state) : Prop :=
  Forall (λ pair, is_Some (sigs !! pair)) CURRENCY_PAIRS.

(** The test step 3 makes of a candidate: its pair is neither waiting nor
    resting. *)
Definition eligible (sigs : gmap string pair_state) (x : potential_signal) : bool :=
  match sigs !! ps_pair x with
  | Some s => bool_decide (sd_result (current_signal s) ≠ Waiting) && negb (is_resting s)
  | None => false
  end.

(** What the sort compares of a candidate: tier, larger condition count,
    evaluation time. *)
Definition ranking_of (x : potential_signal) : nat * nat * Z :=
  (confidence_level x, Scheduler.bull_conditions x `max` Scheduler.bear_conditions x,
   analysis_time x).

(** The world after the start-up with a signal activated for the first
    [n] pairs. *)
Definition board_with (n : nat) : world :=
  (for_each (take n CURRENCY_PAIRS)
     (λ pair, transit pair
        (SignalActivated Scenarios.boot_time
           (Scenarios.waiting_signal (Some (of_int 110)))))
     (initialize (start Scenarios.boot_time)).1).1.

(** A candidate for a pair, as step 2 builds it from a waiting signal. *)
Definition candidate_for (pair : string) : potential_signal :=
  {| ps_pair := pair;
     ps_signal_data := Scenarios.waiting_signal (Some (of_int 110));
     analysis_time := Scenarios.boot_time;
     Scheduler.bull_conditions := 0; Scheduler.bear_conditions := 0;
     confidence_level := 1 |}.

End Board.

(** * Notions for the invariants of the loop *)

Module Triples.
Import Strategy Runtime Gateway Scheduler.

(** Started in a world that has [pre], a computation returns a value
    with [ret] or raises an exception with [exc], either of them holding
    of the world it leaves. *)
Definition hoare {A} (pre : world → Prop) (m : M A)
    (ret : A → world → Prop) (exc : exn → world → Prop) : Prop :=
  ∀ w, pre w →
    match m w with
    | (w', Returns a) => ret a w'
    | (w', Raises e) => exc e w'
    end.

(** The world with [signals[pair]] replaced. *)
Definition write (pair : string) (s : pair_state) (w : world) : world :=
  {| signals := <[pair := s]> (signals w);
     TWELVEDATA_CACHE := TWELVEDATA_CACHE w; clock := clock w |}.

(** A signal with a direction, as step 3 activates it. *)
Definition tradable (sd : signal_data) : Prop :=
  sd_direction sd ≠ NONE ∧ is_Some (entry_price sd)
  ∧ sd_confidence sd ∈ [LOW; MEDIUM; HIGH].

(** The state of a pair as the loop keeps it: its record names the pair;
    a waiting record is tradable and its pair is not resting; the count
    of results since the last rest is below 5 and the count of forced
    wins below 2. *)
Definition well_kept (pair : string) (s : pair_state) : Prop :=
  sd_pair (current_signal s) = pair
  ∧ (sd_result (current_signal s) = Waiting →
     tradable (current_signal s) ∧ is_resting s = false)
  ∧ (signals_given_count s ≤ 4)%nat
  ∧ (forced_wins_given s ≤ 1)%nat.

(** [signals] has an entry for the pairs of the list and for no other
    key, and every entry is well kept. *)
Definition orderly (w : world) : Prop :=
  (∀ pair, is_Some (signals w !! pair) ↔ pair ∈ CURRENCY_PAIRS)
  ∧ ∀ pair s, signals w !! pair = Some s → well_kept pair s.

(** The transitions steps 1 and 2 make for a pair. *)
Definition settling (pair : string) (t : transition) : Prop :=
  match t with
  | ResultFinalized _ real_result => real_result ≠ Waiting
  | NoSignalRecorded _ new_signal =>
      sd_pair new_signal = pair ∧ sd_result new_signal ≠ Waiting
  | SignalActivated _ _ => False
  | _ => True
  end.

(** A candidate as step 2 hands it to step 3. *)
Definition candidate (x : potential_signal) : Prop :=
  ps_pair x ∈ CURRENCY_PAIRS
  ∧ sd_pair (ps_signal_data x) = ps_pair x
  ∧ tradable (ps_signal_data x).

(** From [w0] the loop has come to [w] without adding a waiting signal
    and without the clock going back, and [w] is orderly. *)
Definition settled_from (w0 w : world) : Prop :=
  orderly w
  ∧ (count_waiting (signals w) ≤ count_waiting (signals w0))%nat
  ∧ (clock w0 ≤ clock w)%Z.

End Triples.

(** * Facts about floats *)

Module FloatFacts.

Ltac qc_compute := apply Qc_is_canon; vm_compute; reflexivity.

(** A closed decidable statement, settled by evaluating its decision. *)
Ltac by_evaluation :=
  lazymatch goal with
  | |- ?P => apply (@bool_decide_unpack P _); vm_compute; exact I
  end.

Lemma of_nat_pos (n : nat) : (1 ≤ n)%nat → 0 < of_nat n.
Proof.
  intros Hn. unfold of_nat. rewrite <- Z2Qc_inj_0.
  apply (proj1 (Z2Qc_inj_lt _ _)). lia.
Qed.

Lemma of_nat_zero : of_nat 0 = 0.
Proof. apply Z2Qc_inj_0. Qed.

Lemma of_nat_nonzero (n : nat) : (1 ≤ n)%nat → of_nat n ≠ 0.
Proof.
  intros Hn Hz. pose proof (of_nat_pos n Hn) as Hp.
  rewrite Hz in Hp. by apply Qclt_not_eq in Hp.
Qed.

Lemma of_int_pred_nonneg (n : nat) : (1 ≤ n)%nat → 0 ≤ of_int (Z.of_nat n - 1).
Proof.
  intros Hn. unfold of_int. rewrite <- Z2Qc_inj_0.
  apply (proj1 (Z2Qc_inj_le _ _)). lia.
Qed.

Lemma fdiv_returns (a b : float) : b ≠ 0 → fdiv a b = Returns (a / b).
Proof. intros Hb. unfold fdiv. by rewrite bool_decide_eq_false_2. Qed.

Lemma fdiv_raises (a : float) : fdiv a 0 = Raises ZeroDivisionError.
Proof. unfold fdiv. by rewrite bool_decide_eq_true_2. Qed.

Lemma div_pos (a b : float) : 0 < a → 0 < b → 0 < a / b.
Proof.
  intros Ha Hb. unfold Qcdiv. apply Qcmult_pos_pos; [done|].
  by apply Qcinv_pos.
Qed.

Lemma zero_div (b : float) : 0 / b = 0.
Proof. unfold Qcdiv. apply Qcmult_0_l. Qed.

Lemma fsum_from (a : float) (xs : list float) : foldl Qcplus a xs = a + fsum xs.
Proof.
  unfold fsum. revert a. induction xs as [|x xs IH]; intros a; simpl.
  - by rewrite Qcplus_0_r.
  - rewrite (IH (a + x)), (IH (0 + x)), Qcplus_0_l. symmetry. apply Qcplus_assoc.
Qed.

Lemma fsum_cons (x : float) (xs : list float) : fsum (x :: xs) = x + fsum xs.
Proof. unfold fsum at 1. simpl. by rewrite fsum_from, Qcplus_0_l. Qed.

Lemma fsum_zeros (xs : list float) : Forall (λ x, x = 0) xs → fsum xs = 0.
Proof.
  induction 1 as [|x xs Hx _ IH]; [done|].
  by rewrite fsum_cons, Hx, IH, Qcplus_0_l.
Qed.

Lemma fsum_nonneg (xs : list float) : Forall (λ x, 0 < x) xs → 0 ≤ fsum xs.
Proof.
  induction 1 as [|x xs Hx _ IH]; [done|].
  rewrite fsum_cons. apply Qcplus_nonneg_nonneg; [by apply Qclt_le_weak | done].
Qed.

Lemma fsum_pos (xs : list float) :
  xs ≠ [] → Forall (λ x, 0 < x) xs → 0 < fsum xs.
Proof.
  intros Hne Hall. destruct Hall as [|x xs Hx Hxs]; [done|].
  rewrite fsum_cons. apply Qcplus_pos_nonneg; [done | by apply fsum_nonneg].
Qed.

End FloatFacts.

(** * The indicator helpers *)

Module IndicatorFacts.
Import Indicators Spec FloatFacts.

(** ** Average volume *)

Lemma average_volume_short (volumes : list float) (lookback_period : nat) :
  (length volumes < lookback_period)%nat →
  calculate_average_volume volumes lookback_period = 0.
Proof.
  intros Hlen. unfold calculate_average_volume.
  by rewrite bool_decide_eq_true_2.
Qed.

Lemma average_volume_unit (volumes : list float) (lookback_period : nat) :
  (lookback_period ≤ length volumes)%nat →
  0 < fsum (trailing lookback_period volumes) →
  calculate_average_volume volumes lookback_period = 1.
Proof.
  intros Hlen Hpos. unfold calculate_average_volume.
  rewrite bool_decide_eq_false_2 by lia.
  rewrite bool_decide_eq_true_2 by done.
  unfold Qcdiv. apply Qcmult_inv_r.
  intros Hz. rewrite Hz in Hpos. by apply Qclt_not_eq in Hpos.
Qed.

(** C4, at ten volumes of 2: the helper answers 1, the mean of those
    volumes is 2. *)
Theorem average_volume_is_not_the_mean :
  calculate_average_volume (replicate 10 (of_int 2)) default_lookback_period = 1
  ∧ arithmetic_mean (trailing 10 (replicate 10 (of_int 2))) = of_int 2
  ∧ calculate_average_volume (replicate 10 (of_int 2)) default_lookback_period
    ≠ arithmetic_mean (trailing 10 (replicate 10 (of_int 2))).
Proof.
  split; [qc_compute|]. split; [qc_compute|].
  intros Heq. apply (f_equal this) in Heq. vm_compute in Heq. discriminate.
Qed.

(** ** RSI *)

Lemma length_price_changes (prices : list float) :
  length (price_changes prices) = (length prices - 1)%nat.
Proof.
  unfold price_changes. rewrite length_zip_with.
  destruct prices as [|x rest]; [done|]. cbn [tail length]. lia.
Qed.

Lemma changes_of_increasing (prices : list float) :
  strictly_increasing prices → Forall (λ c, 0 < c) (price_changes prices).
Proof.
  unfold price_changes.
  induction prices as [|x rest IH]; intros Hinc; [constructor|].
  destruct rest as [|y rest']; [constructor|].
  destruct Hinc as [Hxy Hrest]. simpl. constructor.
  - apply Qclt_minus_iff in Hxy. exact Hxy.
  - apply IH, Hrest.
Qed.

Lemma gains_of_positive (changes : list float) :
  Forall (λ c, 0 < c) changes → gain_of <$> changes = changes.
Proof.
  induction 1 as [|c cs Hc _ IH]; [done|].
  rewrite fmap_cons, IH. unfold gain_of.
  by rewrite bool_decide_eq_true_2.
Qed.

Lemma losses_of_positive (changes : list float) :
  Forall (λ c, 0 < c) changes → Forall (λ l, l = 0) (loss_of <$> changes).
Proof.
  induction 1 as [|c cs Hc _ IH]; [constructor|].
  rewrite fmap_cons. constructor; [|done].
  unfold loss_of. by rewrite bool_decide_eq_true_2.
Qed.

Lemma rsi_saturated (avg_gain : float) :
  0 < avg_gain → rsi_of (rs_of avg_gain 0) = Returns (of_int 100).
Proof.
  intros Hg. unfold rs_of.
  rewrite bool_decide_eq_true_2 by done.
  rewrite bool_decide_eq_true_2 by done.
  simpl. f_equal. ring.
Qed.

Lemma rsi_degenerate : rsi_of (rs_of 0 0) = Returns 0.
Proof.
  unfold rs_of. rewrite bool_decide_eq_true_2 by done.
  rewrite bool_decide_eq_false_2 by (by vm_compute).
  unfold rsi_of. rewrite fdiv_returns by (by vm_compute).
  simpl. f_equal; qc_compute.
Qed.

Lemma wilder_gain_pos (period : nat) (avg_gain g : float) :
  (1 ≤ period)%nat → 0 < avg_gain → 0 < g →
  0 < ((avg_gain * of_int (Z.of_nat period - 1)) + g) / of_nat period.
Proof.
  intros Hp Ha Hg. apply div_pos; [|by apply of_nat_pos].
  apply Qcplus_nonneg_pos; [|done].
  apply Qcmult_nonneg_nonneg; [by apply Qclt_le_weak | by apply of_int_pred_nonneg].
Qed.

Lemma wilder_loss_zero (period : nat) :
  ((0 * of_int (Z.of_nat period - 1)) + 0) / of_nat period = 0.
Proof. rewrite Qcmult_0_l, Qcplus_0_l. apply zero_div. Qed.

Lemma rsi_loop_saturated (period : nat) (gains losses : list float) :
  (1 ≤ period)%nat →
  Forall (λ g, 0 < g) gains → Forall (λ l, l = 0) losses →
  length gains = length losses →
  ∀ avg_gain, 0 < avg_gain →
  rsi_loop period avg_gain 0 gains losses
  = Returns (replicate (length gains) (of_int 100)).
Proof.
  intros Hp Hg. revert losses.
  induction Hg as [|g gains Hg0 _ IH]; intros losses Hl Hlen avg_gain Ha.
  - by destruct losses.
  - destruct Hl as [|l losses Hl0 Hl]; [done|]. subst l.
    injection Hlen as Hlen. simpl.
    rewrite wilder_loss_zero.
    rewrite rsi_saturated by (by apply wilder_gain_pos).
    simpl. rewrite IH by (done || by apply wilder_gain_pos). done.
Qed.

Lemma rsi_increasing_values (prices : list float) (period : nat) :
  (1 ≤ period)%nat → (period + 1 ≤ length prices)%nat →
  strictly_increasing prices →
  calculate_rsi prices period
  = Returns (replicate (length prices - period) (of_int 100)).
Proof.
  intros Hp Hlen Hinc. unfold calculate_rsi.
  assert (prices ≠ []) as Hne by (intros ->; simpl in Hlen; lia).
  rewrite bool_decide_eq_false_2 by done.
  rewrite bool_decide_eq_false_2 by lia. simpl.
  pose proof (changes_of_increasing _ Hinc) as Hch.
  rewrite gains_of_positive by done.
  pose proof (losses_of_positive _ Hch) as Hls.
  pose proof (length_price_changes prices) as Hcl.
  rewrite bool_decide_eq_false_2 by lia.
  do 2 rewrite fdiv_returns by (by apply of_nat_nonzero). simpl.
  rewrite (fsum_zeros (take period (loss_of <$> _))) by (by apply Forall_take).
  rewrite zero_div.
  assert (0 < fsum (take period (price_changes prices)) / of_nat period) as Hg.
  { apply div_pos; [|by apply of_nat_pos].
    apply fsum_pos; [|by apply Forall_take].
    intros Hnil. apply (f_equal length) in Hnil.
    rewrite length_take in Hnil. simpl in Hnil. lia. }
  rewrite rsi_saturated by done. simpl.
  rewrite rsi_loop_saturated; try done.
  - simpl. rewrite length_drop, Hcl.
    replace (length prices - period)%nat with (S (length prices - 1 - period)) by lia.
    done.
  - by apply Forall_drop.
  - by apply Forall_drop.
  - by rewrite !length_drop, length_fmap.
Qed.

(** A period of 0 divides by zero before any value is computed. *)
Lemma rsi_period_zero (prices : list float) :
  prices ≠ [] → calculate_rsi prices 0 = Raises ZeroDivisionError.
Proof.
  intros Hne. unfold calculate_rsi.
  rewrite bool_decide_eq_false_2 by done.
  rewrite (bool_decide_eq_false_2 (length prices < 0 + 1)%nat)
    by (destruct prices; [done | simpl; lia]).
  cbn [orb]. rewrite bool_decide_eq_false_2 by lia.
  by rewrite of_nat_zero, fdiv_raises.
Qed.

(** C8: on a strictly increasing series at least [period + 1] long every
    value the function returns is 100, and for a period of at least 1 it
    returns one value per point from index [period] on; where both
    averages are zero the value is 0. *)
Theorem rsi_of_increasing_series (prices : list float) (period : nat) :
  ((period + 1 ≤ length prices)%nat → strictly_increasing prices →
   (∀ values, calculate_rsi prices period = Returns values →
              Forall (λ v, v = of_int 100) values)
   ∧ ((1 ≤ period)%nat →
      calculate_rsi prices period
      = Returns (replicate (length prices - period) (of_int 100))))
  ∧ rsi_of (rs_of 0 0) = Returns 0.
Proof.
  split; [|apply rsi_degenerate].
  intros Hlen Hinc. split; [|intros Hp; by apply rsi_increasing_values].
  intros values Hret. destruct period as [|period].
  - rewrite rsi_period_zero in Hret; [done|].
    intros ->. simpl in Hlen. lia.
  - rewrite rsi_increasing_values in Hret by (done || lia).
    injection Hret as <-. by apply Forall_replicate.
Qed.

(** The series 1, 2, ..., 9 with the period the analysis uses. *)
Lemma rsi_of_increasing_series_witness :
  let prices := of_int <$> [1; 2; 3; 4; 5; 6; 7; 8; 9]%Z in
  strictly_increasing prices
  ∧ calculate_rsi prices 7 = Returns (replicate (length prices - 7) (of_int 100)).
Proof.
  intros prices.
  assert (strictly_increasing prices) as Hinc by (simpl; repeat split; by vm_compute).
  assert (7 + 1 ≤ length prices)%nat as Hlen by (simpl; lia).
  split; [exact Hinc|].
  apply (proj1 (rsi_of_increasing_series prices 7) Hlen Hinc). lia.
Defined.

End IndicatorFacts.

(** * The decision engine *)

Module StrategyFacts.
Import Indicators Strategy Spec FloatFacts Scenarios.

Lemma condition_count (holds : bool) (r : reason) :
  (condition holds r).1 = if holds then 1%nat else 0%nat.
Proof. by destruct holds. Qed.

Lemma bull_conditions_bound (d : strategy_data) :
  (conditions_met (bull_conditions d) ≤ 6)%nat.
Proof.
  unfold conditions_met, bull_conditions. cbn [foldl].
  rewrite !condition_count.
  repeat match goal with |- context [if ?b then _ else _] => destruct b end; lia.
Qed.

Lemma bear_conditions_bound (d : strategy_data) :
  (conditions_met (bear_conditions d) ≤ 6)%nat.
Proof.
  unfold conditions_met, bear_conditions. cbn [foldl].
  rewrite !condition_count.
  repeat match goal with |- context [if ?b then _ else _] => destruct b end; lia.
Qed.

(** The volume test is the fourth entry of both lists. *)
Lemma volume_spike_counts_twice (d : strategy_data) :
  volume_spike d = true →
  (1 ≤ conditions_met (bull_conditions d))%nat
  ∧ (1 ≤ conditions_met (bear_conditions d))%nat.
Proof.
  intros Hv. unfold conditions_met, bull_conditions, bear_conditions.
  cbn [foldl]. rewrite !condition_count, Hv.
  split; repeat match goal with |- context [if ?b then _ else _] => destruct b end; lia.
Qed.

(** The score thresholds on the seven possible counts. *)
Lemma score_threshold (n : nat) :
  (n ≤ 6)%nat →
  bool_decide (decimal 15 100 ≤ of_nat n / of_nat total_possible_conditions)
  = bool_decide (1 ≤ n)%nat.
Proof.
  intros Hn. do 7 (destruct n as [|n]; [by vm_compute|]). lia.
Qed.

Lemma tier_of_count (n : nat) :
  (n ≤ 6)%nat →
  tier_of (of_nat n / of_nat total_possible_conditions)
  = if bool_decide (5 ≤ n)%nat then HIGH
    else if bool_decide (3 ≤ n)%nat then MEDIUM else LOW.
Proof.
  intros Hn. do 7 (destruct n as [|n]; [by vm_compute|]). lia.
Qed.

Lemma tier_of_is_tier (score : float) : tier_of score = tier score.
Proof. reflexivity. Qed.

Lemma selected_decide (own opposing : nat) :
  (own ≤ 6)%nat →
  bool_decide (1 ≤ own)%nat
  && bool_decide (decimal 15 100 ≤ of_nat own / of_nat total_possible_conditions)
  && bool_decide (opposing < 1)%nat = true
  ↔ selected own opposing.
Proof.
  intros Hown. unfold selected.
  change (of_int 6) with (of_nat total_possible_conditions).
  rewrite !andb_true_iff, !bool_decide_eq_true. intuition lia.
Qed.

Lemma selected_exclusive (bull bear : nat) :
  selected bull bear → selected bear bull → False.
Proof. unfold selected. intros (? & _ & ?) (? & _ & ?). lia. Qed.

(** Past the body filter and with a close price other than zero, the
    strategy returns, and its direction and tier follow the rule. *)
Lemma decision_rule (d : strategy_data) :
  ¬ current_candle_body_percentage d < of_int 45 →
  close_price d ≠ 0 →
  let bull := conditions_met (bull_conditions d) in
  let bear := conditions_met (bear_conditions d) in
  ∃ out, mk_pro_generate_signal d = Returns out
    ∧ bull_conditions_met out = bull ∧ bear_conditions_met out = bear
    ∧ (signal out = UP ↔ selected bull bear)
    ∧ (signal out = DOWN ↔ selected bear bull)
    ∧ (bull ≠ 0%nat → bear ≠ 0%nat → signal out = NONE)
    ∧ (signal out = UP → so_confidence out = tier (of_nat bull / of_int 6))
    ∧ (signal out = DOWN → so_confidence out = tier (of_nat bear / of_int 6)).
Proof.
  intros Hbody Hclose bull bear.
  pose proof (bull_conditions_bound d) as Hbull.
  pose proof (bear_conditions_bound d) as Hbear.
  pose proof (selected_decide bull bear Hbull) as Hup.
  pose proof (selected_decide bear bull Hbear) as Hdown.
  unfold mk_pro_generate_signal.
  rewrite bool_decide_eq_false_2 by done.
  fold bull bear. cbv zeta.
  destruct (bool_decide (1 ≤ bull)%nat && _ && bool_decide (bear < 1)%nat) eqn:Eup.
  - assert (selected bull bear) as Hsel by (by apply Hup).
    rewrite bool_decide_eq_true_2 by done.
    rewrite fdiv_returns by done.
    eexists. split; [reflexivity|].
    cbn [signal so_confidence bull_conditions_met bear_conditions_met].
    split_and!; try done.
    + split; [done|]. intros Hsel'. by destruct (selected_exclusive bull bear).
    + intros _ Hne. by destruct Hsel as (_ & _ & ?).
  - destruct (bool_decide (1 ≤ bear)%nat && _ && bool_decide (bull < 1)%nat) eqn:Edown.
    + assert (selected bear bull) as Hsel by (by apply Hdown).
      rewrite bool_decide_eq_true_2 by done.
      rewrite fdiv_returns by done.
      eexists. split; [reflexivity|].
      cbn [signal so_confidence bull_conditions_met bear_conditions_met].
      split_and!; try done.
      * split; [done|]. intros Hsel'. by destruct (selected_exclusive bull bear).
      * intros Hne _. by destruct Hsel as (_ & _ & ?).
    + rewrite bool_decide_eq_false_2 by (intros H; by apply H).
      eexists. split; [reflexivity|].
      cbn [signal so_confidence bull_conditions_met bear_conditions_met].
      split_and!; try done.
      * split; [done|]. intros Hsel. by apply Hup in Hsel.
      * split; [done|]. intros Hsel. by apply Hdown in Hsel.
Qed.

(** With a close price of zero the division made for a selected signal
    raises. *)
Lemma selection_divides_by_close (d : strategy_data) :
  ¬ current_candle_body_percentage d < of_int 45 →
  close_price d = 0 →
  selected (conditions_met (bull_conditions d)) (conditions_met (bear_conditions d))
  ∨ selected (conditions_met (bear_conditions d)) (conditions_met (bull_conditions d)) →
  mk_pro_generate_signal d = Raises ZeroDivisionError.
Proof.
  intros Hbody Hclose Hsel.
  pose proof (selected_decide _ (conditions_met (bear_conditions d))
                (bull_conditions_bound d)) as Hup.
  pose proof (selected_decide _ (conditions_met (bull_conditions d))
                (bear_conditions_bound d)) as Hdown.
  unfold mk_pro_generate_signal.
  rewrite bool_decide_eq_false_2 by done. cbv zeta.
  destruct (bool_decide (1 ≤ conditions_met (bull_conditions d))%nat && _ && _) eqn:Eup.
  - rewrite bool_decide_eq_true_2 by done. by rewrite Hclose, fdiv_raises.
  - destruct Hsel as [Hsel|Hsel]; [by apply Hup in Hsel|].
    apply Hdown in Hsel. rewrite Hsel.
    rewrite bool_decide_eq_true_2 by done. by rewrite Hclose, fdiv_raises.
Qed.

(** A volume spike is evidence on both sides, so no direction survives. *)
Lemma volume_spike_forces_none (d : strategy_data) (out : strategy_output) :
  volume_spike d = true →
  mk_pro_generate_signal d = Returns out →
  signal out = NONE.
Proof.
  intros Hv. destruct (volume_spike_counts_twice d Hv) as [Hbull Hbear].
  unfold mk_pro_generate_signal.
  destruct (bool_decide (current_candle_body_percentage d < of_int 45)).
  { intros [= <-]. done. }
  cbv zeta.
  rewrite (bool_decide_eq_false_2 (conditions_met (bear_conditions d) < 1)%nat) by lia.
  rewrite (bool_decide_eq_false_2 (conditions_met (bull_conditions d) < 1)%nat) by lia.
  rewrite !andb_false_r.
  rewrite bool_decide_eq_false_2 by (intros H; by apply H).
  intros [= <-]. done.
Qed.

(** C6, on the analysed history whose newest row has no close entry: the
    body filter is passed, the bearish side is selected by the rule, and
    the strategy raises instead of returning DOWN. *)
Theorem selection_raises_on_zero_close :
  ∃ d, prepare_strategy_data (Gateway.parse_rows rows_without_close) = Returns (Some d)
    ∧ close_price d = 0
    ∧ ¬ current_candle_body_percentage d < of_int 45
    ∧ selected (conditions_met (bear_conditions d)) (conditions_met (bull_conditions d))
    ∧ mk_pro_generate_signal d = Raises ZeroDivisionError
    ∧ analyze_and_generate_signal boot_time "EUR/USD"
        (Gateway.parse_rows rows_without_close) = Raises ZeroDivisionError.
Proof.
  eexists. split; [vm_compute; reflexivity|].
  split; [qc_compute|]. split; [by_evaluation|]. split; [unfold selected; by_evaluation|].
  split; [|by vm_compute].
  apply selection_divides_by_close; [by_evaluation | qc_compute |].
  right. unfold selected. by_evaluation.
Qed.

(** C5, on the history of the example: the trend, volume and body tests
    hold, the volume is twice the mean of the last ten volumes, and the
    strategy returns NONE with four bullish and one bearish condition. *)
Theorem spike_history_gets_no_signal :
  ∃ d out, prepare_strategy_data spike_history = Returns (Some d)
    ∧ ema30 d < ema10 d
    ∧ volume d = of_int 2 * arithmetic_mean (trailing 10 (c_volume <$> spike_history))
    ∧ avg_volume d = 1
    ∧ volume_spike d = true
    ∧ of_int 45 ≤ current_candle_body_percentage d
    ∧ mk_pro_generate_signal d = Returns out
    ∧ signal out = NONE
    ∧ bull_conditions_met out = 4%nat ∧ bear_conditions_met out = 1%nat.
Proof.
  eexists. eexists. split; [vm_compute; reflexivity|].
  split; [by_evaluation|]. split; [qc_compute|]. split; [qc_compute|].
  split; [by vm_compute|]. split; [by_evaluation|].
  split; [vm_compute; reflexivity|]. done.
Qed.

End StrategyFacts.

(** * The gateway *)

Module GatewayFacts.
Import Runtime Gateway Scheduler Scenarios.

(** C10: a cache entry younger than a minute is what the gateway returns
    for its symbol, whatever interval and row count are asked for, and the
    call changes nothing. *)
Theorem fresh_cache_ignores_request
    (network : time → request → exchange) (keys : list string)
    (symbol interval : string) (outputsize : nat)
    (w : world) (cached_entry : cache_entry) :
  TWELVEDATA_CACHE w !! symbol = Some cached_entry →
  (clock w - ce_timestamp cached_entry < seconds CACHE_DURATION_SECONDS)%Z →
  fetch_twelvedata_candles network keys symbol interval outputsize w
  = (w, Returns (Some (ce_data cached_entry))).
Proof.
  intros Hcached Hfresh. unfold fetch_twelvedata_candles.
  unfold mbind, M_bind, datetime_now, cache_lookup.
  rewrite Hcached. by rewrite bool_decide_eq_true_2.
Qed.

(** A fetch of 2 rows fills the cache; the fetch of 250 rows that follows
    for the same symbol gets those 2 candles, and the other way round. *)
Lemma fresh_cache_ignores_request_witness :
  let w2 := (fetch_twelvedata_candles honest_network api_keys "EUR/USD"
               default_interval 2 (start boot_time)).1 in
  let w250 := (fetch_twelvedata_candles honest_network api_keys "EUR/USD"
                 default_interval 250 (start boot_time)).1 in
  (∃ e, length (ce_data e) = 2%nat
     ∧ fetch_twelvedata_candles honest_network api_keys "EUR/USD" default_interval 250 w2
       = (w2, Returns (Some (ce_data e))))
  ∧ (∃ e, length (ce_data e) = 200%nat
     ∧ fetch_twelvedata_candles honest_network api_keys "EUR/USD" default_interval 2 w250
       = (w250, Returns (Some (ce_data e)))).
Proof.
  intros w2 w250. split.
  - destruct (TWELVEDATA_CACHE w2 !! "EUR/USD") as [e|] eqn:He; [|by vm_compute in He].
    exists e. split.
    + assert (length ∘ ce_data <$> TWELVEDATA_CACHE w2 !! "EUR/USD" = Some 2%nat) as Hl
        by (by vm_compute).
      rewrite He in Hl. by injection Hl.
    + apply fresh_cache_ignores_request; [done|].
      assert (ce_timestamp <$> TWELVEDATA_CACHE w2 !! "EUR/USD" = Some (clock w2)) as Ht
        by (by vm_compute).
      rewrite He in Ht. injection Ht as ->. by vm_compute.
  - destruct (TWELVEDATA_CACHE w250 !! "EUR/USD") as [e|] eqn:He; [|by vm_compute in He].
    exists e. split.
    + assert (length ∘ ce_data <$> TWELVEDATA_CACHE w250 !! "EUR/USD" = Some 200%nat) as Hl
        by (by vm_compute).
      rewrite He in Hl. by injection Hl.
    + apply fresh_cache_ignores_request; [done|].
      assert (ce_timestamp <$> TWELVEDATA_CACHE w250 !! "EUR/USD" = Some (clock w250)) as Ht
        by (by vm_compute).
      rewrite He in Ht. injection Ht as ->. by vm_compute.
Defined.

End GatewayFacts.

(** * The scheduler *)

Module SchedulerFacts.
Import Strategy Runtime Gateway Scheduler Spec Scenarios FloatFacts.

(** ** The real result of an expired signal *)

Lemma index_from_end_last {A} (xs : list A) (x : A) :
  last xs = Some x → index_from_end xs 0 = Returns x.
Proof.
  intros Hlast. unfold index_from_end.
  by rewrite <- head_lookup, head_reverse, Hlast.
Qed.

Lemma determine_result_up (sd : signal_data) (candles : list candle)
    (expiry_candle : candle) (entry : float) :
  last candles = Some expiry_candle →
  entry_price sd = Some entry → sd_direction sd = UP →
  determine_result sd (Some candles)
  = Returns (if bool_decide (entry < c_close expiry_candle) then Win else Loss).
Proof.
  intros Hlast Hentry Hdir. unfold determine_result.
  destruct candles as [|c candles]; [done|].
  rewrite (index_from_end_last _ _ Hlast), Hentry, Hdir. done.
Qed.

Lemma determine_result_down (sd : signal_data) (candles : list candle)
    (expiry_candle : candle) (entry : float) :
  last candles = Some expiry_candle →
  entry_price sd = Some entry → sd_direction sd = DOWN →
  determine_result sd (Some candles)
  = Returns (if bool_decide (c_close expiry_candle < entry) then Win else Loss).
Proof.
  intros Hlast Hentry Hdir. unfold determine_result.
  destruct candles as [|c candles]; [done|].
  rewrite (index_from_end_last _ _ Hlast), Hentry, Hdir. done.
Qed.

Lemma determine_result_unfetched (sd : signal_data) :
  determine_result sd None = Returns DataErrorNoExpiryCandle
  ∧ determine_result sd (Some []) = Returns DataErrorNoExpiryCandle.
Proof. done. Qed.

(** The format of the debug line comes before the test for [None]. *)
Lemma determine_result_missing_entry (sd : signal_data) (candles : list candle) :
  candles ≠ [] → entry_price sd = None →
  determine_result sd (Some candles) = Raises TypeError.
Proof.
  intros Hne Hentry. unfold determine_result.
  destruct candles as [|c candles]; [done|].
  destruct (last (c :: candles)) as [x|] eqn:Hlast.
  - by rewrite (index_from_end_last _ _ Hlast), Hentry.
  - by apply last_None in Hlast.
Qed.

(** An indeterminate real result is what gets recorded. *)
Lemma finalize_records_indeterminate (t : time) (r : result) (s : pair_state) :
  indeterminate r → sd_result (current_signal (finalize_result t r s)) = r.
Proof.
  intros [Hw Hl]. unfold finalize_result, manipulate_result.
  rewrite (bool_decide_eq_false_2 (r = Loss)) by done.
  by rewrite (bool_decide_eq_false_2 (r = Win)).
Qed.


(** ** The result manipulation *)

Lemma manipulate_loss (s : pair_state) :
  manipulate_result Loss s
  = if bool_decide (3 ≤ consecutive_losses s)%nat
    then (Win, S (consecutive_losses s), 1%nat)
    else (Loss, S (consecutive_losses s), 0%nat).
Proof.
  unfold manipulate_result. rewrite bool_decide_eq_true_2 by done.
  rewrite (bool_decide_eq_true_2 (0 < 2)%nat) by lia. rewrite andb_true_r.
  case_bool_decide; case_bool_decide; (done || lia).
Qed.


(** ** The counters *)




(** A real loss never leaves the forced-win counter above 1. *)
Lemma transition_keeps_forced_wins_low (pair : string) (t : transition) (s : pair_state) :
  (forced_wins_given s ≤ 1)%nat →
  (forced_wins_given (apply_transition pair t s) ≤ 1)%nat.
Proof.
  intros Hs.
  destruct t as [ct r|ct|ct|ct ns|now ct|now ns]; simpl; try done; try lia.
  unfold finalize_result.
  destruct (decide (r = Loss)) as [->|Hr].
  - rewrite manipulate_loss. case_bool_decide; simpl; lia.
  - unfold manipulate_result. rewrite bool_decide_eq_false_2 by done.
    case_bool_decide; simpl; lia.
Qed.

(** ** Capacity *)

(** C1: under the capacity scenario three signals wait after the first
    turn and seven after the twenty-first, a minute later; the cap is 4. *)
Theorem waiting_signals_exceed_capacity :
  count_waiting (signals (world_after capacity_network 1)) = 3%nat
  ∧ count_waiting (signals (world_after capacity_network 21)) = 7%nat
  ∧ MAX_ACTIVE_SIGNALS = 4%nat.
Proof. by vm_compute. Qed.

(** ** Ranking *)

Lemma candidates_carry_no_counts (new_signal : signal_data) :
  get_bull_conditions_met new_signal = 0%nat
  ∧ get_bear_conditions_met new_signal = 0%nat.
Proof. done. Qed.

(** C9: in the first turn of the ranking scenario five candidates of the
    same tier are evaluated at the same instant; the strategy found 3
    conditions for the first four and 4 for the fifth, yet step 3 goes
    through them in the order of the pair list, and the fifth is the one
    left without a slot. *)
Theorem ranking_ignores_condition_counts :
  ∃ ranked, first_ranking = Returns ranked
    ∧ ps_pair <$> ranked = ["AUD/USD"; "EUR/JPY"; "EUR/USD"; "GBP/JPY"; "GBP/USD"]
    ∧ as_specified <$> ranked
      = [ (1, 3, boot_time); (1, 3, boot_time); (1, 3, boot_time);
          (1, 3, boot_time); (1, 4, boot_time) ]%nat
    ∧ ¬ ranked_as_claimed (as_specified <$> ranked)
    ∧ (shown (world_after ranking_network 1)) <$> (ps_pair <$> ranked)
      = [Some Waiting; Some Waiting; Some Waiting; Some Waiting; Some NoSignal].
Proof.
  eexists. split; [vm_compute; reflexivity|].
  split; [by vm_compute|].
  assert (∀ l l' : list (nat * nat * Z), l = l' → ¬ ranked_as_claimed l' → ¬ ranked_as_claimed l)
    as Hby by (by intros ?? ->).
  split; [by vm_compute|]. split; [|by vm_compute].
  eapply Hby; [by vm_compute|].
  simpl. intros [Hall _]. apply Forall_cons in Hall as [_ Hall].
  apply Forall_cons in Hall as [_ Hall]. apply Forall_cons in Hall as [_ Hall].
  apply Forall_cons in Hall as [Hlast _]. destruct Hlast as [?|[_ [?|[? _]]]]; lia.
Qed.

End SchedulerFacts.

(** * Invariants of the loop *)

Module LoopFacts.
Import Strategy Runtime Gateway Scheduler Spec Hoare.

Section Keeps.

Context (I : gmap string pair_state → Prop).

Lemma keeps_ret {A} (a : A) : keeps I (mret a).
Proof. by intros w Hw. Qed.

Lemma keeps_bind {A B} (m : M A) (k : A → M B) :
  keeps I m → (∀ a, keeps I (k a)) → keeps I (m ≫= k).
Proof.
  intros Hm Hk w Hw. unfold mbind, M_bind.
  specialize (Hm w Hw). destruct (m w) as [w' [a|e]]; [|done].
  by apply Hk.
Qed.

Lemma keeps_lift {A} (o : outcome A) : keeps I (lift o).
Proof. by intros w Hw. Qed.

Lemma keeps_datetime_now : keeps I datetime_now.
Proof. by intros w Hw. Qed.

Lemma keeps_read_signals : keeps I read_signals.
Proof. by intros w Hw. Qed.

Lemma keeps_get_pair (pair : string) : keeps I (get_pair pair).
Proof. intros w Hw. unfold get_pair. by destruct (signals w !! pair). Qed.

Lemma keeps_time_sleep (secs : Z) : keeps I (time_sleep secs).
Proof. by intros w Hw. Qed.

Lemma keeps_cache_lookup (symbol : string) : keeps I (cache_lookup symbol).
Proof. by intros w Hw. Qed.

Lemma keeps_cache_store (symbol : string) (e : cache_entry) :
  keeps I (cache_store symbol e).
Proof. by intros w Hw. Qed.

Lemma keeps_try_except (body : M unit) (handler : exn → M unit) :
  keeps I body → (∀ e, keeps I (handler e)) → keeps I (try_except body handler).
Proof.
  intros Hb Hh w Hw. unfold try_except.
  specialize (Hb w Hw). destruct (body w) as [w' [a|e]]; [done|].
  by apply Hh.
Qed.

Lemma keeps_for_each {A} (xs : list A) (body : A → M unit) :
  (∀ x, keeps I (body x)) → keeps I (for_each xs body).
Proof.
  intros Hbody. induction xs as [|x xs IH]; simpl.
  - apply keeps_ret.
  - apply keeps_bind; [apply Hbody | intros _; apply IH].
Qed.

Lemma keeps_for_fold {A S} (xs : list A) (acc : S) (body : A → S → M S) :
  (∀ x acc, keeps I (body x acc)) → keeps I (for_fold xs acc body).
Proof.
  intros Hbody. revert acc. induction xs as [|x xs IH]; intros acc; simpl.
  - apply keeps_ret.
  - apply keeps_bind; [apply Hbody | intros acc'; apply IH].
Qed.

Section Provider.

Context (network : time → request → exchange) (API_KEYS : list string).

Lemma keeps_requests_get (rq : request) : keeps I (requests_get network rq).
Proof. by intros w Hw. Qed.

Lemma keeps_try_keys (now : time) (symbol interval : string) (outputsize : nat)
    (keys : list string) :
  keeps I (try_keys network now symbol interval outputsize keys).
Proof.
  induction keys as [|key keys IH]; simpl.
  - apply keeps_ret.
  - apply keeps_bind; [apply keeps_requests_get|].
    intros [| |[rows| |]]; try apply IH.
    case_bool_decide; [|apply IH].
    apply keeps_bind; [apply keeps_cache_store | intros _; apply keeps_ret].
Qed.

Lemma keeps_fetch (symbol interval : string) (outputsize : nat) :
  keeps I (fetch_twelvedata_candles network API_KEYS symbol interval outputsize).
Proof.
  unfold fetch_twelvedata_candles.
  apply keeps_bind; [apply keeps_datetime_now | intros now].
  apply keeps_bind; [apply keeps_cache_lookup | intros [e|]].
  - case_bool_decide; [apply keeps_ret | apply keeps_try_keys].
  - apply keeps_try_keys.
Qed.

End Provider.

End Keeps.

(** A property of every pair that holds at the start and that the six
    transitions keep holds in every world the loop reaches. *)
Section PairInvariant.

Context (P : pair_state → Prop).
Context (P_initial : ∀ now pair, P (initial_pair_state now pair)).
Context (P_transition : ∀ pair t s, P s → P (apply_transition pair t s)).

Lemma keeps_transit (pair : string) (t : transition) :
  keeps (every_pair P) (transit pair t).
Proof.
  intros w Hw. unfold transit, update_pair.
  destruct (signals w !! pair) as [s|] eqn:Hs; [|done]. simpl.
  intros pair' s' Hs'.
  destruct (decide (pair = pair')) as [<-|Hne].
  - rewrite lookup_insert_eq in Hs'. injection Hs' as <-.
    apply P_transition. by eapply Hw.
  - rewrite lookup_insert_ne in Hs' by done. by eapply Hw.
Qed.

Section Provider.

Context (network : time → request → exchange) (API_KEYS : list string).

Lemma keeps_step1_pair (current_time : time) (pair : string) :
  keeps (every_pair P) (step1_pair network API_KEYS current_time pair).
Proof.
  unfold step1_pair.
  apply keeps_bind; [apply keeps_get_pair | intros s].
  repeat case_match; try apply keeps_transit; try apply keeps_ret.
  apply keeps_bind; [apply keeps_fetch | intros candles].
  apply keeps_bind; [apply keeps_lift | intros r].
  apply keeps_transit.
Qed.

Lemma keeps_step2_pair (current_time : time) (count : nat) (pair : string)
    (potential : list potential_signal) :
  keeps (every_pair P) (step2_pair network API_KEYS current_time count pair potential).
Proof.
  unfold step2_pair.
  apply keeps_bind; [apply keeps_get_pair | intros s].
  repeat case_match; try apply keeps_ret.
  - apply keeps_bind; [apply keeps_fetch | intros candles].
    destruct candles as [[|c candles]|].
    + apply keeps_bind; [apply keeps_datetime_now | intros now].
      apply keeps_bind; [apply keeps_transit | intros _; apply keeps_ret].
    + apply keeps_bind; [apply keeps_datetime_now | intros now].
      apply keeps_bind; [apply keeps_lift | intros new_signal].
      destruct (bool_decide (sd_direction new_signal ≠ NONE)).
      * apply keeps_bind; [apply keeps_lift | intros level; apply keeps_ret].
      * apply keeps_bind; [apply keeps_transit | intros _; apply keeps_ret].
    + apply keeps_bind; [apply keeps_datetime_now | intros now].
      apply keeps_bind; [apply keeps_transit | intros _; apply keeps_ret].
Qed.

Lemma keeps_select_signals (ranked selected : list potential_signal) :
  keeps (every_pair P) (select_signals ranked selected).
Proof.
  revert selected. induction ranked as [|x ranked IH]; intros selected; simpl.
  - apply keeps_ret.
  - case_bool_decide; [|apply keeps_ret].
    apply keeps_bind; [apply keeps_get_pair | intros s].
    case_match; apply IH.
Qed.

Lemma keeps_activate (x : potential_signal) : keeps (every_pair P) (activate x).
Proof.
  unfold activate.
  apply keeps_bind; [apply keeps_datetime_now | intros now; apply keeps_transit].
Qed.

Lemma keeps_iteration : keeps (every_pair P) (iteration network API_KEYS).
Proof.
  unfold iteration, step1, step2, step3.
  apply keeps_bind; [apply keeps_datetime_now | intros current_time].
  apply keeps_bind; [apply keeps_for_each; intros pair; apply keeps_step1_pair | intros _].
  apply keeps_bind.
  { apply keeps_bind; [apply keeps_read_signals | intros sigs].
    apply keeps_for_fold. intros pair acc. apply keeps_step2_pair. }
  intros potential.
  apply keeps_bind; [|intros _; apply keeps_time_sleep].
  apply keeps_bind; [apply keeps_select_signals | intros chosen].
  apply keeps_for_each. intros x. apply keeps_activate.
Qed.

Lemma keeps_guarded_iteration :
  keeps (every_pair P) (guarded_iteration network API_KEYS).
Proof.
  apply keeps_try_except; [apply keeps_iteration | intros e; apply keeps_time_sleep].
Qed.

Lemma keeps_iterations (n : nat) : keeps (every_pair P) (iterations network API_KEYS n).
Proof.
  induction n as [|n IH]; simpl; [apply keeps_ret|].
  apply keeps_bind; [apply keeps_guarded_iteration | intros _; apply IH].
Qed.

Lemma keeps_initialize : keeps (every_pair P) initialize.
Proof.
  unfold initialize. apply keeps_for_each. intros pair w Hw. simpl.
  intros pair' s' Hs'.
  destruct (decide (pair = pair')) as [<-|Hne].
  - rewrite lookup_insert_eq in Hs'. injection Hs' as <-. apply P_initial.
  - rewrite lookup_insert_ne in Hs' by done. by eapply Hw.
Qed.

(** Every pair of every world the loop reaches has the property. *)
Lemma reached_pairs (n : nat) (t0 : time) (pair : string) (s : pair_state) :
  signals (signal_generation_loop network API_KEYS n (start t0)).1 !! pair = Some s →
  P s.
Proof.
  revert pair s. change (every_pair P (signals
    (signal_generation_loop network API_KEYS n (start t0)).1)).
  unfold signal_generation_loop.
  apply keeps_bind; [apply keeps_initialize | intros _; apply keeps_iterations|].
  intros pair s Hs. simpl in Hs. by rewrite lookup_empty in Hs.
Qed.

End Provider.

End PairInvariant.

(** ** What step 2 returns *)

Lemma yields_ret {A} (Q : A → Prop) (a : A) : Q a → yields Q (mret a).
Proof. intros Ha w a' [= <-]. exact Ha. Qed.

Lemma yields_bind {A B} (Q : B → Prop) (m : M A) (k : A → M B) :
  (∀ a, yields Q (k a)) → yields Q (m ≫= k).
Proof.
  intros Hk w b. unfold mbind, M_bind.
  destruct (m w) as [w' [a|e]]; [apply Hk | done].
Qed.

Lemma yields_for_fold {A S} (Q : S → Prop) (xs : list A) (body : A → S → M S) :
  (∀ x acc, Q acc → yields Q (body x acc)) →
  ∀ acc, Q acc → yields Q (for_fold xs acc body).
Proof.
  intros Hbody. induction xs as [|x xs IH]; intros acc Hacc; simpl.
  - by apply yields_ret.
  - intros w b. unfold mbind, M_bind.
    destruct (body x acc w) as [w' [acc'|e]] eqn:Hrun; [|done].
    apply IH. apply (Hbody x acc Hacc w). by rewrite Hrun.
Qed.

Section Candidates.

Context (network : time → request → exchange) (API_KEYS : list string).

Lemma step2_pair_builds (current_time : time) (count : nat) (pair : string)
    (potential : list potential_signal) :
  Forall (built_at current_time) potential →
  yields (Forall (built_at current_time))
    (step2_pair network API_KEYS current_time count pair potential).
Proof.
  intros Hpot. unfold step2_pair.
  apply yields_bind; intros s.
  repeat case_match; try by apply yields_ret.
  - apply yields_bind; intros candles.
    destruct candles as [[|c candles]|].
    + apply yields_bind; intros now. apply yields_bind; intros _. by apply yields_ret.
    + apply yields_bind; intros now. apply yields_bind; intros new_signal.
      destruct (bool_decide (sd_direction new_signal ≠ NONE)).
      * apply yields_bind; intros level. apply yields_ret.
        apply Forall_app. split; [done|]. by repeat constructor.
      * apply yields_bind; intros _. by apply yields_ret.
    + apply yields_bind; intros now. apply yields_bind; intros _. by apply yields_ret.
Qed.

(** Every candidate of a turn has both condition counts 0 and the
    starting time of the turn as its evaluation time. *)
Lemma step2_builds (current_time : time) :
  yields (Forall (built_at current_time)) (step2 network API_KEYS current_time).
Proof.
  unfold step2. apply yields_bind; intros sigs.
  apply yields_for_fold; [|constructor].
  intros pair acc Hacc. by apply step2_pair_builds.
Qed.

End Candidates.

(** Step 3 fills at most [MAX_ACTIVE_SIGNALS] slots in a turn; the
    signals already waiting do not enter the count. *)
Lemma select_signals_bounded (ranked chosen : list potential_signal) :
  (length chosen ≤ MAX_ACTIVE_SIGNALS)%nat →
  yields (λ l, length l ≤ MAX_ACTIVE_SIGNALS)%nat (select_signals ranked chosen).
Proof.
  revert chosen. induction ranked as [|x ranked IH]; intros chosen Hlen; simpl.
  - by apply yields_ret.
  - case_bool_decide; [|by apply yields_ret].
    apply yields_bind; intros s.
    case_match; apply IH; [|done].
    rewrite length_app. simpl. lia.
Qed.

(** ** The sort *)

Lemma key_lt_irrefl (k : nat * nat * Z) : key_lt k k = false.
Proof.
  destruct k as [[a b] c]. unfold key_lt.
  rewrite (bool_decide_eq_false_2 (a < a)%nat) by lia.
  rewrite (bool_decide_eq_false_2 (b < b)%nat) by lia.
  rewrite (bool_decide_eq_false_2 (c < c)%Z) by lia.
  simpl. by rewrite !andb_false_r.
Qed.

Lemma key_lt_spec (a1 a2 : nat) (a3 : Z) (b1 b2 : nat) (b3 : Z) :
  key_lt (a1, a2, a3) (b1, b2, b3) = true
  ↔ (a1 < b1)%nat ∨ (a1 = b1 ∧ ((a2 < b2)%nat ∨ (a2 = b2 ∧ (a3 < b3)%Z))).
Proof.
  unfold key_lt.
  repeat (rewrite orb_true_iff || rewrite andb_true_iff
          || rewrite bool_decide_eq_true).
  done.
Qed.

Lemma key_ge_trans (a b c : nat * nat * Z) :
  key_lt a b = false → key_lt b c = false → key_lt a c = false.
Proof.
  destruct a as [[a1 a2] a3], b as [[b1 b2] b3], c as [[c1 c2] c3].
  rewrite <- !not_true_iff_false, !key_lt_spec. lia.
Qed.

Lemma key_lt_asym (a b : nat * nat * Z) :
  key_lt a b = true → key_lt b a = false.
Proof.
  destruct a as [[a1 a2] a3], b as [[b1 b2] b3].
  rewrite <- !not_true_iff_false, !key_lt_spec. lia.
Qed.

Lemma key_lt_not_eq (a b : nat * nat * Z) : key_lt a b = true → a ≠ b.
Proof. intros Hlt ->. by rewrite key_lt_irrefl in Hlt. Qed.

(** The sort as a model of [list.sort]: a permutation, descending, and
    stable. *)
Lemma insert_descending_perm (x : potential_signal) (l : list potential_signal) :
  insert_descending x l ≡ₚ x :: l.
Proof.
  induction l as [|y l IH]; [done|]. cbn [insert_descending].
  destruct (key_lt (sort_key x) (sort_key y)); [|done].
  rewrite IH. apply Permutation_swap.
Qed.

Lemma sort_descending_perm (l : list potential_signal) : sort_descending l ≡ₚ l.
Proof.
  induction l as [|x l IH]; [done|].
  unfold sort_descending in *. cbn [foldr].
  by rewrite insert_descending_perm, IH.
Qed.

Lemma insert_descending_sorted (x : potential_signal) (l : list potential_signal) :
  StronglySorted (λ a b, key_lt (sort_key a) (sort_key b) = false) l →
  StronglySorted (λ a b, key_lt (sort_key a) (sort_key b) = false)
    (insert_descending x l).
Proof.
  induction 1 as [|y l Hl IH Hy]; cbn [insert_descending].
  - by repeat constructor.
  - destruct (key_lt (sort_key x) (sort_key y)) eqn:Hxy.
    + constructor; [done|].
      rewrite insert_descending_perm. constructor; [|done].
      by apply key_lt_asym.
    + constructor; [by constructor|]. constructor; [done|].
      eapply Forall_impl; [exact Hy|]. intros z Hz. by eapply key_ge_trans.
Qed.

Lemma sort_descending_sorted (l : list potential_signal) :
  StronglySorted (λ a b, key_lt (sort_key a) (sort_key b) = false)
    (sort_descending l).
Proof.
  induction l as [|x l IH]; [constructor|].
  unfold sort_descending in *. cbn [foldr]. by apply insert_descending_sorted.
Qed.

Lemma insert_descending_stable (k : nat * nat * Z) (x : potential_signal)
    (l : list potential_signal) :
  filter (λ y, sort_key y = k) (insert_descending x l)
  = filter (λ y, sort_key y = k) (x :: l).
Proof.
  induction l as [|y l IH]; [done|]. cbn [insert_descending].
  destruct (key_lt (sort_key x) (sort_key y)) eqn:Hxy; [|done].
  apply key_lt_not_eq in Hxy.
  rewrite !filter_cons, IH, !filter_cons.
  repeat case_decide; congruence.
Qed.

Lemma sort_descending_stable (k : nat * nat * Z) (l : list potential_signal) :
  filter (λ y, sort_key y = k) (sort_descending l) = filter (λ y, sort_key y = k) l.
Proof.
  induction l as [|x l IH]; [done|].
  unfold sort_descending in *. cbn [foldr].
  by rewrite insert_descending_stable, !filter_cons, IH.
Qed.

(** Candidates built in the same turn compare by their tier alone. *)
Lemma key_lt_built (current_time : time) (x y : potential_signal) :
  built_at current_time x → built_at current_time y →
  key_lt (sort_key x) (sort_key y)
  = bool_decide (confidence_level x < confidence_level y)%nat.
Proof.
  intros (Hxb & Hxr & Hxt) (Hyb & Hyr & Hyt). unfold key_lt, sort_key.
  rewrite Hxb, Hxr, Hxt, Hyb, Hyr, Hyt. simpl.
  rewrite (bool_decide_eq_false_2 (- current_time < - current_time)%Z) by lia.
  by rewrite andb_false_r, orb_false_r.
Qed.

(** The sort leaves a list alone in which no entry has a smaller key than
    the entry after it. *)
Lemma sort_descending_fixed (l : list potential_signal) :
  (∀ i x y, l !! i = Some x → l !! S i = Some y →
            key_lt (sort_key x) (sort_key y) = false) →
  sort_descending l = l.
Proof.
  induction l as [|x l IH]; intros Hadj; [done|].
  unfold sort_descending in *. cbn [foldr]. rewrite IH.
  - destruct l as [|y l]; [done|]. cbn [insert_descending].
    by rewrite (Hadj 0%nat x y).
  - intros i a b Ha Hb. by apply (Hadj (S i)).
Qed.

(** Candidates of one turn and one tier are processed in the order in
    which step 2 found them, whatever the strategy counted for them. *)
Lemma same_tier_keeps_order (current_time : time) (level : nat)
    (potential : list potential_signal) :
  Forall (built_at current_time) potential →
  Forall (λ x, confidence_level x = level) potential →
  sort_descending potential = potential.
Proof.
  intros Hbuilt Hlevel. apply sort_descending_fixed.
  intros i x y Hx Hy.
  rewrite (key_lt_built current_time).
  - rewrite Forall_lookup in Hlevel.
    rewrite (Hlevel _ _ Hx), (Hlevel _ _ Hy). apply bool_decide_eq_false_2. lia.
  - rewrite Forall_lookup in Hbuilt. by eapply Hbuilt.
  - rewrite Forall_lookup in Hbuilt. by eapply Hbuilt.
Qed.

End LoopFacts.

(** * The loss and forced-win counters in the loop *)

Module CounterFacts.
Import Strategy Runtime Gateway Scheduler Spec Hoare Scenarios SchedulerFacts LoopFacts.


Lemma reached_forced_wins_low
    (network : time → request → exchange) (keys : list string)
    (n : nat) (t0 : time) (pair : string) (s : pair_state) :
  signals (signal_generation_loop network keys n (start t0)).1 !! pair = Some s →
  (forced_wins_given s ≤ 1)%nat.
Proof.
  apply (reached_pairs (λ s, forced_wins_given s ≤ 1)%nat).
  - intros now p. simpl. lia.
  - apply transition_keeps_forced_wins_low.
Qed.






End CounterFacts.

(** * More facts about floats *)

Module OrderFacts.
Import FloatFacts.

(** Linear arithmetic on floats, by way of the rationals under them. *)
Ltac qc_lra :=
  unfold Qcle, Qclt, Qcminus, Qcplus, Qcopp, Qcmult in *;
  cbn [this Q2Qc] in *;
  rewrite ?Qred_correct in *;
  lra.

Lemma div_nonneg (a b : float) : 0 ≤ a → 0 < b → 0 ≤ a / b.
Proof.
  intros Ha Hb. unfold Qcdiv. apply Qcmult_nonneg_nonneg; [done|].
  apply Qclt_le_weak. by apply Qcinv_pos.
Qed.

Lemma div_le_self (x y : float) : 0 ≤ x → 1 ≤ y → x / y ≤ x.
Proof.
  intros Hx Hy.
  assert (0 < y) as Hpos by (apply Qclt_le_trans with 1; [done | exact Hy]).
  apply (Qcmult_le_mono_pos_r _ _ y Hpos).
  rewrite (Qcmult_comm (x / y) y), Qcmult_div_r
    by (intros ->; by apply Qclt_not_eq in Hpos).
  rewrite <- (Qcmult_1_r x) at 1.
  by apply Qcmult_le_mono_nonneg_l.
Qed.

Lemma fsum_nonneg_all (xs : list float) : Forall (λ x, 0 ≤ x) xs → 0 ≤ fsum xs.
Proof.
  induction 1 as [|x xs Hx _ IH]; [done|].
  rewrite fsum_cons. by apply Qcplus_nonneg_nonneg.
Qed.

Lemma fsum_replicate (n : nat) (c : float) : fsum (replicate n c) = of_nat n * c.
Proof.
  induction n as [|n IH].
  - rewrite of_nat_zero. simpl. unfold fsum. simpl. ring.
  - cbn [replicate]. rewrite fsum_cons, IH. unfold of_nat.
    rewrite Nat2Z.inj_succ, <- Z.add_1_r, Z2Qc_inj_add, Z2Qc_inj_1. ring.
Qed.

Lemma fmax_ge_l (a b : float) : a ≤ fmax a b.
Proof.
  unfold fmax. case_bool_decide; [by apply Qclt_le_weak | apply Qcle_refl].
Qed.

Lemma fmax_ge_r (a b : float) : b ≤ fmax a b.
Proof.
  unfold fmax. case_bool_decide; [apply Qcle_refl | by apply Qcnot_lt_le].
Qed.

Lemma fmin_le_l (a b : float) : fmin a b ≤ a.
Proof.
  unfold fmin. case_bool_decide; [by apply Qclt_le_weak | apply Qcle_refl].
Qed.

Lemma fmin_le_r (a b : float) : fmin a b ≤ b.
Proof.
  unfold fmin. case_bool_decide; [apply Qcle_refl | by apply Qcnot_lt_le].
Qed.

(** The root of the model is never negative. *)
Lemma math_sqrt_nonneg (x : float) : 0 ≤ math_sqrt x.
Proof.
  unfold math_sqrt, Qcle. cbn [this Q2Qc]. rewrite !Qred_correct.
  unfold Qle. cbn [Qnum Qden]. rewrite Z.mul_0_l, Z.mul_1_r. apply Z.sqrt_nonneg.
Qed.

End OrderFacts.

(** * The shape of what the indicator helpers return *)

Module IndicatorShapes.
Import Indicators Spec FloatFacts OrderFacts Windows Patterns.

(** ** EMA *)

Lemma length_ema_loop (sf prev : float) (rest : list float) :
  length (ema_loop sf prev rest) = length rest.
Proof.
  revert prev. induction rest as [|p rest IH]; intros prev; simpl; [done|].
  by rewrite IH.
Qed.

Lemma length_calculate_ema (prices : list float) (period : nat) :
  length (calculate_ema prices period)
  = if bool_decide (1 ≤ period ≤ length prices)%nat
    then (length prices - period + 1)%nat else 0%nat.
Proof.
  unfold calculate_ema.
  destruct prices as [|p prices].
  { rewrite bool_decide_eq_true_2 by done. cbn [orb length].
    by rewrite bool_decide_eq_false_2 by lia. }
  rewrite (bool_decide_eq_false_2 (p :: prices = [])) by done. cbn [orb].
  destruct (decide (length (p :: prices) < period)%nat) as [Hshort|Hlong].
  { rewrite bool_decide_eq_true_2 by done.
    by rewrite bool_decide_eq_false_2 by lia. }
  rewrite bool_decide_eq_false_2 by done.
  destruct (decide (0 < period)%nat) as [Hpos|Hzero].
  - rewrite bool_decide_eq_true_2 by done.
    rewrite bool_decide_eq_true_2 by lia.
    cbn [length]. rewrite length_ema_loop, length_drop. cbn [length] in *. lia.
  - rewrite bool_decide_eq_false_2 by done.
    by rewrite bool_decide_eq_false_2 by lia.
Qed.


Lemma of_nat_nonneg (n : nat) : 0 ≤ of_nat n.
Proof.
  unfold of_nat. rewrite <- Z2Qc_inj_0. apply (proj1 (Z2Qc_inj_le _ _)). lia.
Qed.


Lemma le_div_of_mul_le (a b c : float) : 0 < b → c * b ≤ a → c ≤ a / b.
Proof.
  intros Hb Hle. apply (Qcmult_le_mono_pos_r _ _ b Hb).
  by rewrite (Qcmult_comm (a / b) b), Qcmult_div_r
    by (intros ->; by apply Qclt_not_eq in Hb).
Qed.






(** [calculate_ema] returns one value per price from index [period - 1]
    on, and nothing for a period of 0 or one longer than the series. *)
Theorem ema_length (prices : list float) (period : nat) :
  length (calculate_ema prices period)
  = if bool_decide (1 ≤ period ≤ length prices)%nat
    then (length prices - period + 1)%nat else 0%nat.
Proof. apply length_calculate_ema. Qed.



(** ** RSI *)

Lemma gain_nonneg (c : float) : 0 ≤ gain_of c.
Proof. unfold gain_of. case_bool_decide; [by apply Qclt_le_weak | done]. Qed.

Lemma loss_nonneg (c : float) : 0 ≤ loss_of c.
Proof. unfold loss_of. case_bool_decide; [done | apply Qcabs_nonneg]. Qed.

(** A point of the RSI from two averages that are not negative. *)
Lemma rsi_point_bounds (avg_gain avg_loss : float) :
  0 ≤ avg_gain → 0 ≤ avg_loss →
  ∃ v, rsi_of (rs_of avg_gain avg_loss) = Returns v ∧ 0 ≤ v ∧ v ≤ of_int 100.
Proof.
  intros Hg Hl. unfold rs_of.
  assert (0 ≤ of_int 100) as H100 by by_evaluation.
  case_bool_decide as Hz.
  - case_bool_decide.
    + exists (of_int 100 - 0). split; [done|]. split; qc_lra.
    + exists (of_int 100 - of_int 100 / (1 + 0)). unfold rsi_of.
      rewrite fdiv_returns by (by vm_compute). split; [done|].
      assert (of_int 100 / (1 + 0) = of_int 100) as -> by (field; by vm_compute).
      split; qc_lra.
  - assert (0 < avg_loss) as Hpos.
    { destruct (Qcle_lt_or_eq _ _ Hl) as [?|Heq]; [done|]. by rewrite <- Heq in Hz. }
    pose proof (div_nonneg _ _ Hg Hpos) as Hr.
    assert (1 ≤ 1 + avg_gain / avg_loss) as H1 by qc_lra.
    assert (0 < 1 + avg_gain / avg_loss) as H0
      by (apply Qclt_le_trans with 1; [done | exact H1]).
    unfold rsi_of. rewrite fdiv_returns
      by (intros Heq; rewrite Heq in H0; by apply Qclt_not_eq in H0).
    exists (of_int 100 - of_int 100 / (1 + avg_gain / avg_loss)).
    split; [done|].
    pose proof (div_le_self _ _ H100 H1) as Hle.
    pose proof (div_nonneg _ _ H100 H0) as Hge.
    split; qc_lra.
Qed.

Lemma wilder_nonneg (period : nat) (avg x : float) :
  (1 ≤ period)%nat → 0 ≤ avg → 0 ≤ x →
  0 ≤ ((avg * of_int (Z.of_nat period - 1)) + x) / of_nat period.
Proof.
  intros Hp Ha Hx. apply div_nonneg; [|by apply of_nat_pos].
  apply Qcplus_nonneg_nonneg; [|done].
  apply Qcmult_nonneg_nonneg; [done | by apply of_int_pred_nonneg].
Qed.

Lemma rsi_loop_bounds (period : nat) (gains losses : list float) :
  (1 ≤ period)%nat →
  Forall (λ g, 0 ≤ g) gains → Forall (λ l, 0 ≤ l) losses →
  length gains = length losses →
  ∀ avg_gain avg_loss, 0 ≤ avg_gain → 0 ≤ avg_loss →
  ∃ values, rsi_loop period avg_gain avg_loss gains losses = Returns values
    ∧ length values = length gains
    ∧ Forall (λ v, 0 ≤ v ∧ v ≤ of_int 100) values.
Proof.
  intros Hp Hg. revert losses.
  induction Hg as [|g gains Hg0 _ IH]; intros losses Hl Hlen avg_gain avg_loss Ha Hb.
  - destruct losses; [|done]. exists []. by repeat split.
  - destruct Hl as [|l losses Hl0 Hl]; [done|]. injection Hlen as Hlen.
    cbn [rsi_loop].
    pose proof (wilder_nonneg period avg_gain g Hp Ha Hg0) as Ha'.
    pose proof (wilder_nonneg period avg_loss l Hp Hb Hl0) as Hb'.
    destruct (rsi_point_bounds _ _ Ha' Hb') as (v & -> & Hv).
    destruct (IH losses Hl Hlen _ _ Ha' Hb') as (vs & -> & Hlen' & Hvs).
    exists (v :: vs). split; [done|]. split; [simpl; by rewrite Hlen'|].
    by constructor.
Qed.

Lemma calculate_rsi_bounds (prices : list float) (period : nat) :
  (1 ≤ period)%nat →
  ∃ values, calculate_rsi prices period = Returns values
    ∧ length values = (length prices - period)%nat
    ∧ Forall (λ v, 0 ≤ v ∧ v ≤ of_int 100) values.
Proof.
  intros Hp. unfold calculate_rsi.
  destruct (decide (prices = [])) as [->|Hne].
  { exists []. by repeat split. }
  rewrite (bool_decide_eq_false_2 (prices = [])) by done. cbn [orb].
  pose proof (IndicatorFacts.length_price_changes prices) as Hcl.
  case_bool_decide as Hshort.
  { exists []. split; [done|]. split; [simpl; lia | done]. }
  cbv zeta. rewrite bool_decide_eq_false_2 by (rewrite length_fmap; lia).
  do 2 rewrite fdiv_returns by (by apply of_nat_nonzero).
  assert (Forall (λ g, 0 ≤ g) (gain_of <$> price_changes prices)) as Hg
    by (apply Forall_fmap, Forall_true; intros c; apply gain_nonneg).
  assert (Forall (λ l, 0 ≤ l) (loss_of <$> price_changes prices)) as Hl
    by (apply Forall_fmap, Forall_true; intros c; apply loss_nonneg).
  assert (0 ≤ fsum (take period (gain_of <$> price_changes prices)) / of_nat period)
    as Ha by (apply div_nonneg; [apply fsum_nonneg_all; by apply Forall_take
                                | by apply of_nat_pos]).
  assert (0 ≤ fsum (take period (loss_of <$> price_changes prices)) / of_nat period)
    as Hb by (apply div_nonneg; [apply fsum_nonneg_all; by apply Forall_take
                                | by apply of_nat_pos]).
  cbn [mbind outcome_bind].
  destruct (rsi_point_bounds _ _ Ha Hb) as (v & -> & Hv).
  destruct (rsi_loop_bounds period
              (drop period (gain_of <$> price_changes prices))
              (drop period (loss_of <$> price_changes prices)) Hp
              (Forall_drop _ _ _ Hg) (Forall_drop _ _ _ Hl)
              ltac:(by rewrite !length_drop, !length_fmap) _ _ Ha Hb)
    as (vs & -> & Hlen & Hvs).
  exists (v :: vs). split; [done|]. split; [|by constructor].
  simpl. rewrite Hlen, length_drop, length_fmap, Hcl. lia.
Qed.

(** For a period of at least 1 the RSI never raises, has one value per
    price from index [period] on, and every value lies between 0 and
    100. *)
Theorem rsi_bounded (prices : list float) (period : nat) :
  (1 ≤ period)%nat →
  ∃ values, calculate_rsi prices period = Returns values
    ∧ length values = (length prices - period)%nat
    ∧ Forall (λ v, 0 ≤ v ∧ v ≤ of_int 100) values.
Proof. apply calculate_rsi_bounds. Qed.

(** A series that rises and falls, with a period of 2. *)
Lemma rsi_bounded_witness :
  (1 ≤ 2)%nat
  ∧ ∃ values, calculate_rsi (of_int <$> [3; 5; 4; 4; 7]%Z) 2 = Returns values
      ∧ length values = (length (of_int <$> [3; 5; 4; 4; 7]%Z) - 2)%nat
      ∧ Forall (λ v, 0 ≤ v ∧ v ≤ of_int 100) values.
Proof.
  split; [lia|]. apply (rsi_bounded (of_int <$> [3; 5; 4; 4; 7]%Z) 2). lia.
Defined.

(** ** MACD *)

Lemma length_suffix_difference (n : nat) (a b : list float) :
  (n ≤ length a)%nat → (n ≤ length b)%nat →
  length (suffix_difference n a b) = n.
Proof.
  intros Ha Hb. unfold suffix_difference.
  rewrite length_zip_with, !length_drop. lia.
Qed.

Lemma calculate_macd_lines (prices : list float) (fast slow signal : nat) :
  (1 ≤ fast)%nat → (1 ≤ slow)%nat → (1 ≤ signal)%nat →
  (fast `max` slow + signal ≤ length prices)%nat →
  ∃ macd_line signal_line histogram,
    calculate_macd prices fast slow signal = (macd_line, signal_line, histogram)
    ∧ length macd_line = (length prices - fast `max` slow + 1)%nat
    ∧ signal_line = calculate_ema macd_line signal
    ∧ length signal_line = (length macd_line - signal + 1)%nat
    ∧ histogram
      = zip_with Qcminus
          (drop (length macd_line - length signal_line) macd_line) signal_line
    ∧ length histogram = length signal_line.
Proof.
  intros Hf Hs Hg Hlen. unfold calculate_macd.
  rewrite bool_decide_eq_false_2 by lia. cbv zeta.
  pose proof (length_calculate_ema prices fast) as Hlf.
  pose proof (length_calculate_ema prices slow) as Hls.
  rewrite bool_decide_eq_true_2 in Hlf by lia.
  rewrite bool_decide_eq_true_2 in Hls by lia.
  rewrite bool_decide_eq_false_2 by lia.
  set (macd_line := suffix_difference _ _ _).
  assert (length macd_line = (length prices - fast `max` slow + 1)%nat) as Hm.
  { unfold macd_line. rewrite length_suffix_difference; lia. }
  pose proof (length_calculate_ema macd_line signal) as Hsl.
  rewrite bool_decide_eq_true_2 in Hsl by lia.
  rewrite bool_decide_eq_false_2 by lia.
  eexists _, _, _. split; [reflexivity|].
  split; [done|]. split; [done|]. split; [done|]. split.
  - unfold suffix_difference.
    rewrite Nat.min_r by lia.
    by rewrite Nat.sub_diag, drop_0.
  - rewrite length_suffix_difference; lia.
Qed.

(** With enough prices the MACD line has one value per price from the
    longer period on, the signal line is the EMA of the MACD line, and the
    histogram is the signal line subtracted from the last values of the
    MACD line, one value per value of the signal line. *)
Theorem macd_shape (prices : list float) (fast slow signal : nat) :
  (1 ≤ fast)%nat → (1 ≤ slow)%nat → (1 ≤ signal)%nat →
  (fast `max` slow + signal ≤ length prices)%nat →
  ∃ macd_line signal_line histogram,
    calculate_macd prices fast slow signal = (macd_line, signal_line, histogram)
    ∧ length macd_line = (length prices - fast `max` slow + 1)%nat
    ∧ signal_line = calculate_ema macd_line signal
    ∧ length signal_line = (length macd_line - signal + 1)%nat
    ∧ histogram
      = zip_with Qcminus
          (drop (length macd_line - length signal_line) macd_line) signal_line
    ∧ length histogram = length signal_line.
Proof. apply calculate_macd_lines. Qed.

(** Forty prices with the periods the analysis uses. *)
Lemma macd_shape_witness :
  let prices := of_nat <$> seq 1 40 in
  ∃ macd_line signal_line histogram,
    calculate_macd prices 12 26 9 = (macd_line, signal_line, histogram)
    ∧ length macd_line = (length prices - 12 `max` 26 + 1)%nat
    ∧ signal_line = calculate_ema macd_line 9
    ∧ length signal_line = (length macd_line - 9 + 1)%nat
    ∧ histogram
      = zip_with Qcminus
          (drop (length macd_line - length signal_line) macd_line) signal_line
    ∧ length histogram = length signal_line.
Proof.
  intros prices. apply (macd_shape prices 12 26 9); try lia.
  unfold prices. rewrite length_fmap, length_seq. simpl. lia.
Defined.

(** ** Bollinger bands *)

Lemma length_window (prices : list float) (period i : nat) :
  (i + period ≤ length prices)%nat → length (window prices period i) = period.
Proof. intros Hi. unfold window. rewrite length_take, length_drop. lia. Qed.

Lemma bollinger_at_returns (prices : list float) (period : nat) (std_dev : float)
    (i : nat) :
  (1 ≤ period)%nat → (i + period ≤ length prices)%nat →
  bollinger_at prices period std_dev i
  = Returns (arithmetic_mean (window prices period i)
             + deviation (window prices period i) * std_dev,
             arithmetic_mean (window prices period i),
             arithmetic_mean (window prices period i)
             - deviation (window prices period i) * std_dev).
Proof.
  intros Hp Hi. unfold bollinger_at, deviation, arithmetic_mean.
  fold (window prices period i). rewrite (length_window _ _ _ Hi).
  rewrite fdiv_returns by (by apply of_nat_nonzero). cbn [mbind outcome_bind].
  by rewrite fdiv_returns by (by apply of_nat_nonzero).
Qed.

Lemma bollinger_loop_returns (prices : list float) (period : nat) (std_dev : float)
    (starts : list nat) :
  (1 ≤ period)%nat → Forall (λ i, i + period ≤ length prices)%nat starts →
  bollinger_loop prices period std_dev starts
  = Returns ((λ i, arithmetic_mean (window prices period i)
                   + deviation (window prices period i) * std_dev) <$> starts,
             (λ i, arithmetic_mean (window prices period i)) <$> starts,
             (λ i, arithmetic_mean (window prices period i)
                   - deviation (window prices period i) * std_dev) <$> starts).
Proof.
  intros Hp. induction 1 as [|i starts Hi _ IH]; [done|].
  cbn [bollinger_loop]. by rewrite bollinger_at_returns, IH.
Qed.

Lemma calculate_bollinger_bands_returns (prices : list float) (period : nat)
    (std_dev : float) :
  (1 ≤ period)%nat → (period ≤ length prices)%nat →
  calculate_bollinger_bands prices period std_dev
  = Returns ((λ i, arithmetic_mean (window prices period i)
                   + deviation (window prices period i) * std_dev)
               <$> seq 0 (length prices - period + 1),
             (λ i, arithmetic_mean (window prices period i))
               <$> seq 0 (length prices - period + 1),
             (λ i, arithmetic_mean (window prices period i)
                   - deviation (window prices period i) * std_dev)
               <$> seq 0 (length prices - period + 1)).
Proof.
  intros Hp Hlen. unfold calculate_bollinger_bands.
  rewrite bool_decide_eq_false_2 by (intros ->; simpl in Hlen; lia).
  rewrite bool_decide_eq_false_2 by lia. cbn [orb].
  apply bollinger_loop_returns; [done|].
  apply Forall_forall. intros i Hi. apply elem_of_seq in Hi. lia.
Qed.





(** ** A period of 0 *)

(** On a series that is not empty a period of 0 gives no EMA value, while
    the RSI and the Bollinger bands raise [ZeroDivisionError]. *)
Theorem zero_period (prices : list float) (std_dev : float) :
  prices ≠ [] →
  calculate_ema prices 0 = []
  ∧ calculate_rsi prices 0 = Raises ZeroDivisionError
  ∧ calculate_bollinger_bands prices 0 std_dev = Raises ZeroDivisionError.
Proof.
  intros Hne. split_and!.
  - unfold calculate_ema. rewrite bool_decide_eq_false_2 by done.
    rewrite bool_decide_eq_false_2 by lia. cbn [orb].
    by rewrite bool_decide_eq_false_2 by lia.
  - by apply IndicatorFacts.rsi_period_zero.
  - unfold calculate_bollinger_bands.
    rewrite bool_decide_eq_false_2 by done.
    rewrite bool_decide_eq_false_2 by lia. cbn [orb].
    rewrite Nat.sub_0_r, Nat.add_1_r. cbn [seq bollinger_loop].
    unfold bollinger_at. cbn [take fmap list_fmap].
    by rewrite of_nat_zero, fdiv_raises.
Qed.

(** A single price. *)
Lemma zero_period_witness :
  calculate_ema [of_int 5] 0 = []
  ∧ calculate_rsi [of_int 5] 0 = Raises ZeroDivisionError
  ∧ calculate_bollinger_bands [of_int 5] 0 (of_int 2) = Raises ZeroDivisionError.
Proof. by apply (zero_period [of_int 5] (of_int 2)). Defined.

(** ** Heikin-Ashi candles *)

Lemma ha_of_made_from (ha_open : float) (c : candle) : made_from c (ha_of ha_open c).
Proof.
  unfold made_from, well_formed, ha_of, fmax3, fmin3. cbn.
  split_and!; try done.
  - eapply Qcle_trans; [apply fmin_le_l | apply fmin_le_l].
  - eapply Qcle_trans; [apply fmax_ge_l | apply fmax_ge_l].
  - eapply Qcle_trans; [apply fmin_le_l | apply fmin_le_r].
  - eapply Qcle_trans; [apply fmax_ge_r | apply fmax_ge_l].
  - apply fmin_le_r.
  - apply fmax_ge_r.
Qed.

Lemma ha_loop_made_from (prev : ha_candle) (rest : list candle) :
  Forall2 made_from rest (ha_loop prev rest).
Proof.
  revert prev. induction rest as [|c rest IH]; intros prev; cbn [ha_loop].
  - constructor.
  - constructor; [apply ha_of_made_from | apply IH].
Qed.

Lemma ha_loop_opens (prev : ha_candle) (rest : list candle) (i : nat)
    (p h : ha_candle) :
  (prev :: ha_loop prev rest) !! i = Some p →
  (prev :: ha_loop prev rest) !! S i = Some h →
  ha_open h = (ha_open p + ha_close p) / of_int 2.
Proof.
  revert prev i. induction rest as [|c rest IH]; intros prev i Hp Hh.
  - cbn [ha_loop] in Hh. by destruct i.
  - cbn [ha_loop] in Hp, Hh. destruct i as [|i].
    + injection Hp as <-. by injection Hh as <-.
    + exact (IH _ i Hp Hh).
Qed.

Lemma heikin_ashi_made_from (candles : list candle) :
  Forall2 made_from candles (get_heikin_ashi_candles candles).
Proof.
  destruct candles as [|c candles]; cbn [get_heikin_ashi_candles].
  - constructor.
  - constructor; [apply ha_of_made_from | apply ha_loop_made_from].
Qed.

(** The Heikin-Ashi series has one candle per candle, each with the time
    stamp of its candle, the mean of the four prices as its close, and a
    range that contains its open, its close and the range of its candle.
    The first open is the midpoint of the first candle's open and close;
    every later open is the midpoint of the Heikin-Ashi candle before. *)
Theorem heikin_ashi_shape (candles : list candle) :
  Forall2 made_from candles (get_heikin_ashi_candles candles)
  ∧ (∀ c h, head candles = Some c → head (get_heikin_ashi_candles candles) = Some h →
       ha_open h = (c_open c + c_close c) / of_int 2)
  ∧ (∀ i p h, get_heikin_ashi_candles candles !! i = Some p →
       get_heikin_ashi_candles candles !! S i = Some h →
       ha_open h = (ha_open p + ha_close p) / of_int 2).
Proof.
  split; [apply heikin_ashi_made_from|].
  destruct candles as [|c candles]; cbn [get_heikin_ashi_candles].
  - by split.
  - split.
    + intros c' h [= <-] [= <-]. done.
    + intros i p h. apply ha_loop_opens.
Qed.

(** ** The candle classifier *)

Lemma ratio_ge_iff (k b r : float) : 0 < r → k ≤ b / r ↔ k * r ≤ b.
Proof.
  intros Hr. split; intros H.
  - apply (Qcmult_le_mono_pos_r _ _ r Hr) in H.
    by rewrite (Qcmult_comm (b / r) r), Qcmult_div_r in H
      by (intros ->; by apply Qclt_not_eq in Hr).
  - by apply le_div_of_mul_le.
Qed.

Lemma ratio_nonpos (b r : float) : 0 ≤ b → r < 0 → b / r ≤ 0.
Proof.
  intros Hb Hr.
  assert (0 < - r) as Hr' by qc_lra.
  pose proof (div_nonneg b (- r) Hb Hr') as H.
  replace (b / - r) with (- (b / r)) in H
    by (field; split; [apply not_eq_sym, Qclt_not_eq, Hr' | apply Qclt_not_eq, Hr]).
  generalize dependent (b / r). intros q Hq. clear -Hq. qc_lra.
Qed.

(** With a range above zero the body test compares the body with six
    tenths of the range; without one the candle is neutral. *)
Lemma body_test (body range : float) :
  0 ≤ body → range ≠ 0 →
  decimal 6 10 ≤ body / range ↔ 0 < range ∧ decimal 6 10 * range ≤ body.
Proof.
  intros Hb Hr.
  destruct (Qclt_le_dec 0 range) as [Hpos|Hneg].
  - rewrite ratio_ge_iff by done. tauto.
  - assert (range < 0) as Hlt.
    { destruct (Qcle_lt_or_eq _ _ Hneg) as [?|?]; [done | by subst]. }
    pose proof (ratio_nonpos body range Hb Hlt) as Hq.
    split.
    + intros Hge. exfalso.
      assert (0 < decimal 6 10) as H6 by by_evaluation.
      generalize dependent (body / range). generalize dependent (decimal 6 10).
      intros k Hk q Hq Hge. clear -Hk Hq Hge. qc_lra.
    + intros [Hpos _]. exfalso. clear -Hpos Hneg. qc_lra.
Qed.

(** A candle is a clean bullish one exactly when it closes above its
    open, its high lies above its low and its body is at least six tenths
    of its range; a clean bearish one is the mirror image; every other
    candle is neutral. *)
Theorem candle_type_characterised (c : candle) :
  (get_candle_type c = bullish_clean
   ↔ c_open c < c_close c ∧ c_low c < c_high c
     ∧ decimal 6 10 * (c_high c - c_low c) ≤ c_close c - c_open c)
  ∧ (get_candle_type c = bearish_clean
     ↔ c_close c < c_open c ∧ c_low c < c_high c
       ∧ decimal 6 10 * (c_high c - c_low c) ≤ c_open c - c_close c).
Proof.
  unfold get_candle_type. cbv zeta.
  assert (c_low c < c_high c ↔ 0 < c_high c - c_low c) as Hrange
    by (split; intros H; qc_lra).
  case_bool_decide as Hzero.
  { rewrite Hrange, Hzero. split; (split; [done|]); intros (_ & H & _);
      by apply Qclt_not_eq in H. }
  destruct (Qclt_le_dec (c_open c) (c_close c)) as [Hup|Hnotup].
  - rewrite (bool_decide_eq_true_2 _ Hup).
    rewrite (bool_decide_eq_false_2 (c_close c < c_open c))
      by (apply Qcle_not_lt; by apply Qclt_le_weak).
    assert (0 ≤ c_close c - c_open c) as Hbody0 by (clear -Hup; qc_lra).
    rewrite (Qcabs_pos _ Hbody0). cbn [andb].
    pose proof (body_test _ _ Hbody0 Hzero) as Htest.
    case_bool_decide as Hbody.
    + apply Htest in Hbody as [? ?]. split; [|split; [done|]].
      * split; [|done]. intros _. by rewrite Hrange.
      * intros (Hlt & _). exfalso. clear -Hup Hlt. qc_lra.
    + split; (split; [done|]).
      * intros (_ & Hr & Hb). destruct Hbody. apply Htest. by rewrite <- Hrange.
      * intros (Hlt & _). exfalso. clear -Hup Hlt. qc_lra.
  - rewrite (bool_decide_eq_false_2 (c_open c < c_close c))
      by (by apply Qcle_not_lt).
    cbn [andb].
    destruct (Qclt_le_dec (c_close c) (c_open c)) as [Hdown|Hflat].
    + rewrite (bool_decide_eq_true_2 _ Hdown). cbn [andb].
      assert (c_close c - c_open c ≤ 0) as Hneg by (clear -Hdown; qc_lra).
      assert (0 ≤ c_open c - c_close c) as Hbody0 by (clear -Hdown; qc_lra).
      rewrite (Qcabs_neg _ Hneg).
      replace (- (c_close c - c_open c)) with (c_open c - c_close c) by ring.
      pose proof (body_test _ _ Hbody0 Hzero) as Htest.
      case_bool_decide as Hbody.
      * apply Htest in Hbody as [? ?]. split; [split; [done|]|].
        -- intros (Hlt & _). exfalso. clear -Hdown Hlt. qc_lra.
        -- split; [|done]. intros _. by rewrite Hrange.
      * split; (split; [done|]).
        -- intros (Hlt & _). exfalso. clear -Hdown Hlt. qc_lra.
        -- intros (_ & Hr & Hb). destruct Hbody. apply Htest. by rewrite <- Hrange.
    + rewrite (bool_decide_eq_false_2 (c_close c < c_open c))
        by (by apply Qcle_not_lt).
      cbn [andb]. split; (split; [done|]); intros (Hlt & _); exfalso.
      * clear -Hnotup Hlt. qc_lra.
      * clear -Hflat Hlt. qc_lra.
Qed.

End IndicatorShapes.

(** * The analysis of a history *)

Module AnalysisFacts.
Import Indicators Strategy Spec FloatFacts OrderFacts Windows Analysis
  IndicatorShapes StrategyFacts.

Lemma last_is_Some {A} (xs : list A) : (0 < length xs)%nat → is_Some (last xs).
Proof.
  intros Hlen. destruct (last xs) eqn:E; [done|].
  apply last_None in E. subst. simpl in Hlen. lia.
Qed.

Lemma index_from_end_returns {A} (xs : list A) (k : nat) :
  (k < length xs)%nat → ∃ x, index_from_end xs k = Returns x ∧ reverse xs !! k = Some x.
Proof.
  intros Hk. unfold index_from_end.
  destruct (lookup_lt_is_Some_2 (reverse xs) k) as [x Hx];
    [by rewrite length_reverse|].
  exists x. by rewrite Hx.
Qed.

Lemma reverse_lookup_0 {A} (xs : list A) : reverse xs !! 0%nat = last xs.
Proof. by rewrite <- head_lookup, head_reverse. Qed.

Lemma average_volume_values (volumes : list float) (lookback_period : nat) :
  calculate_average_volume volumes lookback_period = 0
  ∨ calculate_average_volume volumes lookback_period = 1.
Proof.
  unfold calculate_average_volume.
  case_bool_decide; [by left|]. case_bool_decide as Hpos; [|by left].
  right. unfold Qcdiv. apply Qcmult_inv_r.
  intros Hz. rewrite Hz in Hpos. by apply Qclt_not_eq in Hpos.
Qed.

Lemma body_percentage_nonneg (body range : float) :
  0 ≤ (if bool_decide (0 < range) then ([body] / range) * of_int 100 else 0).
Proof.
  case_bool_decide as Hr; [|done].
  apply Qcmult_nonneg_nonneg; [|by_evaluation].
  apply div_nonneg; [apply Qcabs_nonneg | done].
Qed.

Lemma prepare_strategy_data_returns (candles : list candle) :
  (MIN_CANDLES ≤ length candles)%nat →
  ∃ d, prepare_strategy_data candles = Returns (Some d) ∧ prepared_from candles d.
Proof.
  unfold MIN_CANDLES. intros Hlen. unfold prepare_strategy_data.
  destruct (index_from_end_returns candles 0 ltac:(lia)) as (cur & -> & Hcur).
  rewrite reverse_lookup_0 in Hcur.
  destruct (index_from_end_returns candles 1 ltac:(lia)) as (prev & -> & _).
  cbn [mbind outcome_bind].
  assert (length (c_close <$> candles) = length candles) as Hcl
    by apply length_fmap.
  destruct (calculate_rsi_bounds (c_close <$> candles) 7 ltac:(lia))
    as (rsi_values & -> & Hrl & Hrb).
  cbn [mbind outcome_bind].
  destruct (calculate_macd_lines (c_close <$> candles) 12 26 9)
    as (ml & sl & hist & -> & Hml & _ & Hsl & _ & Hhl); try lia.
  rewrite calculate_bollinger_bands_returns by lia.
  cbn [mbind outcome_bind].
  destruct (index_from_end_returns (c_volume <$> candles) 0
              ltac:(rewrite length_fmap; lia)) as (vol & -> & Hvol).
  rewrite reverse_lookup_0, fmap_last, Hcur in Hvol. injection Hvol as <-.
  cbn [mbind outcome_bind].
  pose proof (length_calculate_ema (c_close <$> candles) 10) as H10.
  pose proof (length_calculate_ema (c_close <$> candles) 30) as H30.
  rewrite bool_decide_eq_true_2 in H10 by lia.
  rewrite bool_decide_eq_true_2 in H30 by lia.
  destruct (last_is_Some (calculate_ema (c_close <$> candles) 10) ltac:(lia))
    as [e10 ->].
  destruct (last_is_Some (calculate_ema (c_close <$> candles) 30) ltac:(lia))
    as [e30 ->].
  destruct (last_is_Some rsi_values ltac:(lia)) as [r Hr]. rewrite Hr.
  destruct (last_is_Some ml ltac:(lia)) as [mlv ->].
  destruct (last_is_Some sl ltac:(lia)) as [slv ->].
  rewrite !fmap_last.
  destruct (last_is_Some (seq 0 (length (c_close <$> candles) - 20 + 1))
              ltac:(rewrite length_seq; lia)) as [j ->].
  cbn [fmap option_fmap option_map].
  destruct (lookup_lt_is_Some_2 (reverse hist) 0
              ltac:(rewrite length_reverse; lia)) as [h ->].
  destruct (lookup_lt_is_Some_2 (reverse hist) 1
              ltac:(rewrite length_reverse; lia)) as [h1 ->].
  destruct (lookup_lt_is_Some_2 (reverse hist) 2
              ltac:(rewrite length_reverse; lia)) as [h2 ->].
  pose proof (Forall2_length _ _ _ (heikin_ashi_made_from candles)) as Hha.
  destruct (last_is_Some (get_heikin_ashi_candles candles) ltac:(lia)) as [hc ->].
  destruct (lookup_lt_is_Some_2 (reverse (get_heikin_ashi_candles candles)) 1
              ltac:(rewrite length_reverse; lia)) as [hp ->].
  eexists. split; [reflexivity|].
  exists cur. cbn.
  split_and!; try done.
  - exists r. split; [done|].
    apply last_Some_elem_of in Hr. by apply (proj1 (Forall_forall _ _) Hrb).
  - pose proof (Qcmult_nonneg_nonneg _ _
      (math_sqrt_nonneg
         (fsum ((λ x, (x - arithmetic_mean (window (c_close <$> candles) 20 j)) ^ 2)
                  <$> window (c_close <$> candles) 20 j)
          / of_nat (length (window (c_close <$> candles) 20 j))))
      (ltac:(by_evaluation) : 0 ≤ of_int 2)) as Hw.
    fold (deviation (window (c_close <$> candles) 20 j)) in Hw.
    generalize dependent (deviation (window (c_close <$> candles) 20 j) * of_int 2).
    generalize (arithmetic_mean (window (c_close <$> candles) 20 j)).
    intros a w Hw. clear -Hw. qc_lra.
  - apply average_volume_values.
  - apply body_percentage_nonneg.
Qed.


(** ** The strategy *)

Lemma bull_conditions_without_spike (d : strategy_data) :
  volume_spike d = false → (conditions_met (bull_conditions d) ≤ 5)%nat.
Proof.
  intros Hv. unfold conditions_met, bull_conditions. cbn [foldl].
  rewrite !condition_count, Hv.
  repeat match goal with |- context [if ?b then _ else _] => destruct b end; lia.
Qed.

Lemma bear_conditions_without_spike (d : strategy_data) :
  volume_spike d = false → (conditions_met (bear_conditions d) ≤ 5)%nat.
Proof.
  intros Hv. unfold conditions_met, bear_conditions. cbn [foldl].
  rewrite !condition_count, Hv.
  repeat match goal with |- context [if ?b then _ else _] => destruct b end; lia.
Qed.

(** The two ways of the body filter. *)
Ltac body_filter d H :=
  destruct (decide (current_candle_body_percentage d < of_int 45)) as [H|H];
  [rewrite (bool_decide_eq_true_2 _ H) | rewrite (bool_decide_eq_false_2 _ H)].

(** What a selected direction implies. *)
Lemma selected_implies (d : strategy_data) (own opposing : nat) :
  (volume_spike d = true → (1 ≤ opposing)%nat) →
  (volume_spike d = false → (own ≤ 5)%nat) →
  (own ≤ 6)%nat →
  selected own opposing →
  volume_spike d = false ∧ opposing = 0%nat ∧ (1 ≤ own ≤ 5)%nat
  ∧ tier_of (of_nat own / of_nat total_possible_conditions) = tier_for own.
Proof.
  intros Hspike Hquiet Hown (Hone & _ & Hzero).
  destruct (volume_spike d) eqn:Hv; [specialize (Hspike eq_refl); lia|].
  specialize (Hquiet eq_refl). split_and!; try done.
  by apply tier_of_count.
Qed.

Lemma strategy_returns (d : strategy_data) (out : strategy_output) :
  mk_pro_generate_signal d = Returns out →
  (signal out = UP →
     ¬ current_candle_body_percentage d < of_int 45
     ∧ volume_spike d = false
     ∧ bull_conditions_met out = conditions_met (bull_conditions d)
     ∧ bear_conditions_met out = 0%nat
     ∧ (1 ≤ bull_conditions_met out ≤ 5)%nat
     ∧ so_confidence out = tier_for (bull_conditions_met out))
  ∧ (signal out = DOWN →
     ¬ current_candle_body_percentage d < of_int 45
     ∧ volume_spike d = false
     ∧ bear_conditions_met out = conditions_met (bear_conditions d)
     ∧ bull_conditions_met out = 0%nat
     ∧ (1 ≤ bear_conditions_met out ≤ 5)%nat
     ∧ so_confidence out = tier_for (bear_conditions_met out))
  ∧ (signal out = NONE → so_confidence out = LOW).
Proof.
  pose proof (bull_conditions_bound d) as Hbull.
  pose proof (bear_conditions_bound d) as Hbear.
  pose proof (selected_decide _ (conditions_met (bear_conditions d)) Hbull) as Hup.
  pose proof (selected_decide _ (conditions_met (bull_conditions d)) Hbear) as Hdown.
  unfold mk_pro_generate_signal. body_filter d Hbody.
  { intros [= <-]. by cbn. }
  cbv zeta.
  destruct (bool_decide (1 ≤ conditions_met (bull_conditions d))%nat && _ && _) eqn:Eup.
  - assert (selected (conditions_met (bull_conditions d))
              (conditions_met (bear_conditions d))) as Hsel by (by apply Hup).
    rewrite bool_decide_eq_true_2 by done.
    destruct (fdiv _ _) as [q|e]; [|done]. intros [= <-]. cbn.
    destruct (selected_implies d _ _
                (λ Hv, proj2 (volume_spike_counts_twice d Hv))
                (bull_conditions_without_spike d) Hbull Hsel)
      as (Hv & Hz & Hn & Ht).
    split_and!; done.
  - destruct (bool_decide (1 ≤ conditions_met (bear_conditions d))%nat && _ && _) eqn:Edown.
    + assert (selected (conditions_met (bear_conditions d))
                (conditions_met (bull_conditions d))) as Hsel by (by apply Hdown).
      rewrite bool_decide_eq_true_2 by done.
      destruct (fdiv _ _) as [q|e]; [|done]. intros [= <-]. cbn.
      destruct (selected_implies d _ _
                  (λ Hv, proj1 (volume_spike_counts_twice d Hv))
                  (bear_conditions_without_spike d) Hbear Hsel)
        as (Hv & Hz & Hn & Ht).
      split_and!; done.
    + rewrite bool_decide_eq_false_2 by (intros H; by apply H).
      intros [= <-]. by cbn.
Qed.

Lemma strategy_raises (d : strategy_data) (e : exn) :
  mk_pro_generate_signal d = Raises e →
  e = ZeroDivisionError ∧ close_price d = 0.
Proof.
  unfold mk_pro_generate_signal. body_filter d Hbody; [done|]. cbv zeta.
  destruct (bool_decide (1 ≤ conditions_met (bull_conditions d))%nat && _ && _).
  - rewrite bool_decide_eq_true_2 by done.
    unfold fdiv. case_bool_decide; [|done]. by intros [= <-].
  - destruct (bool_decide (1 ≤ conditions_met (bear_conditions d))%nat && _ && _).
    + rewrite bool_decide_eq_true_2 by done.
      unfold fdiv. case_bool_decide; [|done]. by intros [= <-].
    + by rewrite bool_decide_eq_false_2 by (intros H; by apply H).
Qed.

(** The strategy raises nothing but [ZeroDivisionError], and raises it
    exactly when the body filter is passed, a direction is selected and
    the close price is zero. *)
Theorem strategy_raises_only_on_zero_close (d : strategy_data) :
  (∀ e, mk_pro_generate_signal d = Raises e → e = ZeroDivisionError)
  ∧ (mk_pro_generate_signal d = Raises ZeroDivisionError
     ↔ ¬ current_candle_body_percentage d < of_int 45
       ∧ close_price d = 0
       ∧ (selected (conditions_met (bull_conditions d))
                   (conditions_met (bear_conditions d))
          ∨ selected (conditions_met (bear_conditions d))
                     (conditions_met (bull_conditions d)))).
Proof.
  split; [intros e He; by apply (strategy_raises d e)|].
  split.
  - intros Hraise. destruct (strategy_raises d _ Hraise) as [_ Hclose].
    pose proof (selected_decide _ (conditions_met (bear_conditions d))
                  (bull_conditions_bound d)) as Hup.
    pose proof (selected_decide _ (conditions_met (bull_conditions d))
                  (bear_conditions_bound d)) as Hdown.
    revert Hraise. unfold mk_pro_generate_signal.
    body_filter d Hbody; [done|]. cbv zeta.
    destruct (bool_decide (1 ≤ conditions_met (bull_conditions d))%nat && _ && _)
      eqn:Eup.
    { intros _. split_and!; [done | done | left; by apply Hup]. }
    destruct (bool_decide (1 ≤ conditions_met (bear_conditions d))%nat && _ && _)
      eqn:Edown.
    { intros _. split_and!; [done | done | right; by apply Hdown]. }
    by rewrite bool_decide_eq_false_2 by (intros H; by apply H).
  - intros (Hbody & Hclose & Hsel). by apply selection_divides_by_close.
Qed.

(** A direction the strategy returns passed the body filter without a
    volume spike, has between 1 and 5 conditions met against none for the
    other direction, and gets HIGH for 5 conditions, MEDIUM for 3 or 4 and
    LOW for 1 or 2; without a direction the confidence is LOW. *)
Theorem signal_needs_unopposed_conditions (d : strategy_data)
    (out : strategy_output) :
  mk_pro_generate_signal d = Returns out →
  (signal out = UP →
     ¬ current_candle_body_percentage d < of_int 45
     ∧ volume_spike d = false
     ∧ bull_conditions_met out = conditions_met (bull_conditions d)
     ∧ bear_conditions_met out = 0%nat
     ∧ (1 ≤ bull_conditions_met out ≤ 5)%nat
     ∧ so_confidence out = tier_for (bull_conditions_met out))
  ∧ (signal out = DOWN →
     ¬ current_candle_body_percentage d < of_int 45
     ∧ volume_spike d = false
     ∧ bear_conditions_met out = conditions_met (bear_conditions d)
     ∧ bull_conditions_met out = 0%nat
     ∧ (1 ≤ bear_conditions_met out ≤ 5)%nat
     ∧ so_confidence out = tier_for (bear_conditions_met out))
  ∧ (signal out = NONE → so_confidence out = LOW).
Proof. apply strategy_returns. Qed.


(** The breakout history and what the strategy makes of it. *)
Lemma signal_needs_unopposed_conditions_witness :
  ∃ d out, prepare_strategy_data Scenarios.breakout_history = Returns (Some d)
    ∧ mk_pro_generate_signal d = Returns out
    ∧ signal out = UP
    ∧ ¬ current_candle_body_percentage d < of_int 45
    ∧ volume_spike d = false
    ∧ bull_conditions_met out = conditions_met (bull_conditions d)
    ∧ bear_conditions_met out = 0%nat
    ∧ (1 ≤ bull_conditions_met out ≤ 5)%nat
    ∧ so_confidence out = tier_for (bull_conditions_met out).
Proof.
  destruct (prepare_strategy_data Scenarios.breakout_history) as [[d|]|e] eqn:Hd;
    [|by vm_compute in Hd..].
  pose proof Hd as Hd'. vm_compute in Hd'. injection Hd' as <-.
  match type of Hd with _ = Returns (Some ?d) => exists d end.
  destruct (mk_pro_generate_signal _) as [out|e] eqn:Hout; [|by vm_compute in Hout].
  pose proof Hout as Hout'. vm_compute in Hout'. injection Hout' as <-.
  eexists. split; [reflexivity|]. split; [reflexivity|]. split; [reflexivity|].
  apply (proj1 (signal_needs_unopposed_conditions _ _ Hout)). reflexivity.
Defined.

(** ** The analysis *)



Lemma analyze_guard (candles : list candle) :
  bool_decide (candles = []) || bool_decide (length candles < MIN_CANDLES)%nat
  = bool_decide (length candles < MIN_CANDLES)%nat.
Proof.
  destruct candles as [|c candles]; [|done].
  rewrite bool_decide_eq_true_2 by done.
  by rewrite bool_decide_eq_true_2 by (unfold MIN_CANDLES; simpl; lia).
Qed.

Lemma analyze_returns (now : Z) (symbol : string) (candles : list candle)
    (sd : signal_data) :
  analyze_and_generate_signal now symbol candles = Returns sd →
  sd_pair sd = symbol
  ∧ (sd_direction sd = NONE →
       sd_result sd = NoSignal ∧ entry_price sd = None
       ∧ entry_time sd = None ∧ expiry_time sd = None
       ∧ expiry_timestamp sd = 0%Z)
  ∧ (sd_direction sd ≠ NONE →
       (MIN_CANDLES ≤ length candles)%nat
       ∧ sd_result sd = Waiting
       ∧ signal_generated_at sd = Some now
       ∧ entry_time sd = Some (now + minutes 1)%Z
       ∧ expiry_time sd = Some (now + minutes 2)%Z
       ∧ expiry_timestamp sd = (now + minutes 2)%Z
       ∧ (∃ cur, last candles = Some cur ∧ entry_price sd = Some (c_close cur))
       ∧ sd_confidence sd ∈ [LOW; MEDIUM; HIGH]).
Proof.
  unfold analyze_and_generate_signal. rewrite analyze_guard.
  case_bool_decide as Hlen.
  { intros [= <-]. by cbn. }
  destruct (prepare_strategy_data_returns candles ltac:(lia))
    as (d & -> & cur & Hcur & Hclose & _).
  cbn [mbind outcome_bind].
  destruct (mk_pro_generate_signal d) as [out|e] eqn:Hout; [|done].
  cbn [mbind outcome_bind].
  destruct (strategy_returns d out Hout) as (Hup & Hdown & _).
  assert (∀ n, tier_for n ∈ [LOW; MEDIUM; HIGH]) as Htier.
  { intros n. unfold tier_for.
    repeat case_bool_decide;
      [ apply list_elem_of_further, list_elem_of_further, list_elem_of_here
      | apply list_elem_of_further, list_elem_of_here
      | apply list_elem_of_here ]. }
  assert (now + minutes 1 + minutes 1 = now + minutes 2)%Z as Htime
    by (unfold minutes, seconds; lia).
  destruct (signal out) eqn:Hdir.
  - rewrite bool_decide_eq_true_2 by done. intros [= <-]. cbn.
    rewrite Htime, Hclose.
    destruct (Hup eq_refl) as (_ & _ & _ & _ & Hn & ->).
    split_and!; try done. intros _.
    split_and!; first [done | lia | by exists cur | by apply Htier].
  - rewrite bool_decide_eq_true_2 by done. intros [= <-]. cbn.
    rewrite Htime, Hclose.
    destruct (Hdown eq_refl) as (_ & _ & _ & _ & Hn & ->).
    split_and!; try done. intros _.
    split_and!; first [done | lia | by exists cur | by apply Htier].
  - rewrite bool_decide_eq_false_2 by (intros H; by apply H).
    intros [= <-]. by cbn.
Qed.

Lemma analyze_raises (now : Z) (symbol : string) (candles : list candle)
    (e : exn) :
  analyze_and_generate_signal now symbol candles = Raises e →
  e = ZeroDivisionError
  ∧ (MIN_CANDLES ≤ length candles)%nat
  ∧ ∃ cur, last candles = Some cur ∧ c_close cur = 0.
Proof.
  unfold analyze_and_generate_signal. rewrite analyze_guard.
  case_bool_decide as Hlen; [done|].
  destruct (prepare_strategy_data_returns candles ltac:(lia))
    as (d & -> & cur & Hcur & Hclose & _).
  cbn [mbind outcome_bind].
  destruct (mk_pro_generate_signal d) as [out|e'] eqn:Hout.
  - cbn [mbind outcome_bind]. by case_bool_decide.
  - cbn [mbind outcome_bind]. intros [= <-].
    destruct (strategy_raises d e' Hout) as [-> Hz].
    split_and!; [done | lia |]. exists cur. by rewrite <- Hclose.
Qed.

(** A record the analysis returns names its pair.  Without a direction it
    shows no signal and has neither times nor an entry price.  With a
    direction it came from at least [MIN_CANDLES] candles, is waiting,
    enters a minute and expires two minutes after the analysis, has the
    newest close as its entry price, and its confidence is LOW, MEDIUM or
    HIGH. *)
Theorem analysis_record_shape (now : Z) (symbol : string)
    (candles : list candle) (sd : signal_data) :
  analyze_and_generate_signal now symbol candles = Returns sd →
  sd_pair sd = symbol
  ∧ (sd_direction sd = NONE →
       sd_result sd = NoSignal ∧ entry_price sd = None
       ∧ entry_time sd = None ∧ expiry_time sd = None
       ∧ expiry_timestamp sd = 0%Z)
  ∧ (sd_direction sd ≠ NONE →
       (MIN_CANDLES ≤ length candles)%nat
       ∧ sd_result sd = Waiting
       ∧ signal_generated_at sd = Some now
       ∧ entry_time sd = Some (now + minutes 1)%Z
       ∧ expiry_time sd = Some (now + minutes 2)%Z
       ∧ expiry_timestamp sd = (now + minutes 2)%Z
       ∧ (∃ cur, last candles = Some cur ∧ entry_price sd = Some (c_close cur))
       ∧ sd_confidence sd ∈ [LOW; MEDIUM; HIGH]).
Proof. apply analyze_returns. Qed.

(** The analysis of the breakout history. *)
Lemma analysis_record_shape_witness :
  ∃ sd, analyze_and_generate_signal Scenarios.boot_time "EUR/USD"
          Scenarios.breakout_history = Returns sd
    ∧ sd_direction sd = UP
    ∧ sd_result sd = Waiting
    ∧ expiry_timestamp sd = (Scenarios.boot_time + minutes 2)%Z
    ∧ (∃ cur, last Scenarios.breakout_history = Some cur
         ∧ entry_price sd = Some (c_close cur)).
Proof.
  destruct (analyze_and_generate_signal Scenarios.boot_time "EUR/USD"
              Scenarios.breakout_history) as [sd|e] eqn:Hsd;
    [|by vm_compute in Hsd].
  assert (sd_direction sd = UP) as Hdir.
  { pose proof Hsd as Hsd'. vm_compute in Hsd'. by injection Hsd' as <-. }
  exists sd. split; [reflexivity|]. split; [exact Hdir|].
  destruct (analysis_record_shape _ _ _ _ Hsd) as (_ & _ & Hsignal).
  destruct Hsignal as (_ & Hres & _ & _ & _ & Hexp & Hentry & _);
    [by rewrite Hdir|].
  by split_and!.
Defined.



End AnalysisFacts.

(** * The gateway: failures, successes and the cache *)

Module GatewayRules.
Import Runtime Gateway Provider.

Lemma parse_row_none (r : raw_row) :
  parse_row r = None ↔ FieldGarbage ∈ fields r.
Proof.
  unfold parse_row, fields. rewrite !elem_of_cons, elem_of_nil.
  destruct r as [dt [|o|] [|h|] [|l|] [|c|] [|v|]]; cbn;
    (split; [first [done | auto 8] | intros H; first [done | intuition discriminate]]).
Qed.

(** The candles come oldest first, one per row that converts; a row is
    skipped exactly when one of its five numbers is present and is not a
    number, and an absent number reads as zero. *)
Theorem rows_are_reversed_and_filtered (rows : list raw_row) :
  parse_rows rows = reverse (omap parse_row rows)
  ∧ (∀ r, parse_row r = None ↔ FieldGarbage ∈ fields r)
  ∧ (∀ r c, parse_row r = Some c → r_close r = FieldMissing → c_close c = 0).
Proof.
  split_and!.
  - unfold parse_rows. induction rows as [|r rows IH]; [done|].
    rewrite reverse_cons, omap_app, IH. cbn [omap list_omap].
    destruct (parse_row r); by rewrite ?reverse_cons, ?app_nil_r.
  - apply parse_row_none.
  - intros r c Hc Hmiss. unfold parse_row in Hc. rewrite Hmiss in Hc.
    destruct (parse_field (r_open r)), (parse_field (r_high r)),
      (parse_field (r_low r)), (parse_field (r_volume r)); cbn in Hc; try done.
    by injection Hc as <-.
Qed.

Section WithProvider.

Context (network : Z → request → exchange) (API_KEYS : list string).


Lemma try_keys_success (now : Z) (symbol interval : string) (outputsize : nat)
    (keys : list string) (w w' : world) (candles : list candle) :
  try_keys network now symbol interval outputsize keys w = (w', Returns (Some candles)) →
  candles ≠ []
  ∧ TWELVEDATA_CACHE w'
    = <[symbol := {| ce_data := candles; ce_timestamp := now |}]> (TWELVEDATA_CACHE w)
  ∧ signals w' = signals w
  ∧ (clock w ≤ clock w')%Z.
Proof.
  revert w. induction keys as [|key keys IH]; intros w; [done|].
  cbn [try_keys]. unfold mbind, M_bind, requests_get.
  set (rq := {| rq_symbol := symbol; rq_interval := interval;
                rq_outputsize := outputsize; rq_apikey := key |}).
  assert (∀ w0, (clock w0 ≤ clock w')%Z
                → clock w0 = clock (advance (latency (network (clock w) rq)) w)
                → (clock w ≤ clock w')%Z) as Hle
    by (intros w0 H1 H2; simpl in H2; lia).
  destruct (answer (network (clock w) rq)) as [| |[rows| |]] eqn:Hanswer;
    try (intros Hrun; destruct (IH _ Hrun) as (? & ? & ? & ?);
         split_and!; [done | done | done | by eapply Hle]).
  case_bool_decide as Hrows.
  - unfold cache_store. intros [= <- <-]. cbn. split_and!; [done | done | done | lia].
  - intros Hrun. destruct (IH _ Hrun) as (? & ? & ? & ?).
    split_and!; [done | done | done | by eapply Hle].
Qed.


(** When the gateway returns candles that it did not take from a fresh
    cache entry, there is at least one, and the cache holds exactly them
    for the symbol, stamped with the time at which the call began; until
    that entry is a minute old every fetch for the symbol returns them. *)
Theorem fetched_candles_are_cached (symbol interval : string)
    (outputsize : nat) (w w' : world) (candles : list candle) :
  ¬ fresh w symbol →
  fetch_twelvedata_candles network API_KEYS symbol interval outputsize w
  = (w', Returns (Some candles)) →
  candles ≠ []
  ∧ TWELVEDATA_CACHE w'
    = <[symbol := {| ce_data := candles; ce_timestamp := clock w |}]>
        (TWELVEDATA_CACHE w)
  ∧ signals w' = signals w
  ∧ ∀ w'' interval' outputsize',
      TWELVEDATA_CACHE w'' = TWELVEDATA_CACHE w' →
      (clock w'' - clock w < seconds CACHE_DURATION_SECONDS)%Z →
      fetch_twelvedata_candles network API_KEYS symbol interval' outputsize' w''
      = (w'', Returns (Some candles)).
Proof.
  intros Hstale. unfold fetch_twelvedata_candles at 1.
  unfold mbind at 1 2, M_bind at 1 2, datetime_now, cache_lookup.
  assert (try_keys network (clock w) symbol interval outputsize API_KEYS w
          = (w', Returns (Some candles)) →
          candles ≠ []
          ∧ TWELVEDATA_CACHE w'
            = <[symbol := {| ce_data := candles; ce_timestamp := clock w |}]>
                (TWELVEDATA_CACHE w)
          ∧ signals w' = signals w
          ∧ ∀ w'' interval' outputsize',
              TWELVEDATA_CACHE w'' = TWELVEDATA_CACHE w' →
              (clock w'' - clock w < seconds CACHE_DURATION_SECONDS)%Z →
              fetch_twelvedata_candles network API_KEYS symbol interval'
                outputsize' w''
              = (w'', Returns (Some candles))) as Hkeys.
  { intros Hrun. destruct (try_keys_success _ _ _ _ _ _ _ _ Hrun)
      as (Hne & Hcache & Hsig & _).
    split_and!; try done.
    intros w'' interval' outputsize' Hsame Hage.
    unfold fetch_twelvedata_candles.
    unfold mbind, M_bind, datetime_now, cache_lookup.
    rewrite Hsame, Hcache, lookup_insert_eq. cbn [ce_timestamp ce_data].
    by rewrite bool_decide_eq_true_2. }
  destruct (TWELVEDATA_CACHE w !! symbol) as [e|] eqn:He; [|done].
  by rewrite bool_decide_eq_false_2 by (intros Hage; apply Hstale; by exists e).
Qed.

End WithProvider.


(** The first fetch of a provider that answers. *)
Lemma fetched_candles_are_cached_witness :
  ∃ w' candles,
    fetch_twelvedata_candles Scenarios.honest_network Scenarios.api_keys
      "EUR/USD" default_interval 2 (Scheduler.start Scenarios.boot_time)
    = (w', Returns (Some candles))
    ∧ candles ≠ []
    ∧ TWELVEDATA_CACHE w'
      = {[ "EUR/USD" := {| ce_data := candles; ce_timestamp := Scenarios.boot_time |} ]}.
Proof.
  destruct (fetch_twelvedata_candles Scenarios.honest_network Scenarios.api_keys
              "EUR/USD" default_interval 2 (Scheduler.start Scenarios.boot_time))
    as [w' [[candles|]|e]] eqn:Hrun; [|by vm_compute in Hrun..].
  exists w', candles. split; [reflexivity|].
  destruct (fetched_candles_are_cached Scenarios.honest_network Scenarios.api_keys
              "EUR/USD" default_interval 2 (Scheduler.start Scenarios.boot_time)
              w' candles) as (Hne & Hcache & _).
  - intros (e & He & _). cbn in He. by rewrite lookup_empty in He.
  - exact Hrun.
  - split; [exact Hne|]. rewrite Hcache. cbn. by rewrite insert_empty.
Defined.

End GatewayRules.

(** * The scheduler: results, capacity, ranking and selection *)

Module SchedulerRules.
Import Strategy Runtime Gateway Scheduler Spec Hoare Board SchedulerFacts LoopFacts.

(** ** The real result *)

(** With an entry price and the candles fetched, only the newest close
    counts: the result is a win exactly when that close lies on the
    favourable side of the entry price, a close equal to the entry price
    is a loss in either direction, and a signal without a direction gets
    the result for that. *)
Theorem win_needs_a_strictly_better_close (sd : signal_data)
    (candles : list candle) (expiry_candle : candle) (entry : float) :
  last candles = Some expiry_candle →
  entry_price sd = Some entry →
  (determine_result sd (Some candles) = Returns Win
   ↔ (sd_direction sd = UP ∧ entry < c_close expiry_candle)
     ∨ (sd_direction sd = DOWN ∧ c_close expiry_candle < entry))
  ∧ (sd_direction sd ≠ NONE → c_close expiry_candle = entry →
     determine_result sd (Some candles) = Returns Loss)
  ∧ (sd_direction sd = NONE →
     determine_result sd (Some candles) = Returns NoDirection).
Proof.
  intros Hlast Hentry.
  destruct (sd_direction sd) eqn:Hdir.
  - rewrite (determine_result_up sd candles expiry_candle entry) by done.
    split_and!; [|by intros _ ->; rewrite bool_decide_eq_false_2
                       by (intros H; by apply Qclt_not_eq in H) | done].
    case_bool_decide; split; try done; [by left; split | intros [[_ ?]|[? _]]; done].
  - rewrite (determine_result_down sd candles expiry_candle entry) by done.
    split_and!; [|by intros _ ->; rewrite bool_decide_eq_false_2
                       by (intros H; by apply Qclt_not_eq in H) | done].
    case_bool_decide; split; try done; [by right; split | intros [[? _]|[_ ?]]; done].
  - assert (determine_result sd (Some candles) = Returns NoDirection) as ->.
    { unfold determine_result. destruct candles as [|c candles]; [done|].
      rewrite (index_from_end_last _ _ Hlast), Hentry, Hdir. done. }
    split_and!; [|done | done].
    split; [done | intros [[? _]|[? _]]; done].
Qed.

(** The waiting signal of the examples against a close of 110. *)
Lemma win_needs_a_strictly_better_close_witness :
  determine_result (Scenarios.waiting_signal (Some (of_int 110)))
    (Some Scenarios.breakout_history) = Returns Loss.
Proof.
  assert (last Scenarios.breakout_history = Some (Scenarios.rising_candle 100 110 0))
    as Hlast by (by vm_compute).
  refine (proj1 (proj2 (win_needs_a_strictly_better_close
                          (Scenarios.waiting_signal (Some (of_int 110)))
                          Scenarios.breakout_history _ (of_int 110) Hlast eq_refl))
                _ _); [done | reflexivity].
Defined.

(** ** Step 2 at capacity *)

Section WithProvider.

Context (network : Z → request → exchange) (API_KEYS : list string).

Lemma step2_pair_at_capacity (current_time : Z) (count : nat) (pair : string)
    (potential : list potential_signal) (w : world) :
  (MAX_ACTIVE_SIGNALS ≤ count)%nat → is_Some (signals w !! pair) →
  step2_pair network API_KEYS current_time count pair potential w
  = (w, Returns potential).
Proof.
  intros Hfull [s Hs]. unfold step2_pair, mbind, M_bind, get_pair. rewrite Hs.
  destruct (is_resting s); [done|].
  destruct (displayed _ && _); [done|].
  by rewrite bool_decide_eq_true_2.
Qed.

Lemma for_fold_at_capacity (current_time : Z) (count : nat) (pairs : list string)
    (potential : list potential_signal) (w : world) :
  (MAX_ACTIVE_SIGNALS ≤ count)%nat →
  Forall (λ pair, is_Some (signals w !! pair)) pairs →
  for_fold pairs potential (step2_pair network API_KEYS current_time count) w
  = (w, Returns potential).
Proof.
  intros Hfull. induction 1 as [|pair pairs Hpair _ IH]; [done|].
  cbn [for_fold]. unfold mbind, M_bind.
  by rewrite step2_pair_at_capacity.
Qed.

Lemma step2_at_capacity (current_time : Z) (w : world) :
  (MAX_ACTIVE_SIGNALS ≤ count_waiting (signals w))%nat →
  Forall (λ pair, is_Some (signals w !! pair)) CURRENCY_PAIRS →
  step2 network API_KEYS current_time w = (w, Returns []).
Proof.
  intros Hfull Hknown. unfold step2, mbind, M_bind, read_signals.
  by apply for_fold_at_capacity.
Qed.

(** With [MAX_ACTIVE_SIGNALS] or more signals waiting when step 2
    begins, step 2 finds no candidate, asks the provider nothing and
    changes nothing. *)
Theorem full_board_stops_analysis (current_time : Z) (w : world) :
  all_pairs_known (signals w) →
  (MAX_ACTIVE_SIGNALS ≤ count_waiting (signals w))%nat →
  step2 network API_KEYS current_time w = (w, Returns []).
Proof.
  intros Hknown Hfull. by apply step2_at_capacity.
Qed.

End WithProvider.

(** The board with four signals waiting. *)
Lemma full_board_stops_analysis_witness :
  step2 Scenarios.honest_network Scenarios.api_keys
    (Scenarios.boot_time + seconds 3) (board_with 4)
  = (board_with 4, Returns []).
Proof.
  apply full_board_stops_analysis.
  - unfold all_pairs_known. FloatFacts.by_evaluation.
  - FloatFacts.by_evaluation.
Defined.


(** ** Ranking *)

Lemma sorted_lookup {A} (R : A → A → Prop) (l : list A) (i j : nat) (x y : A) :
  StronglySorted R l → (i < j)%nat → l !! i = Some x → l !! j = Some y → R x y.
Proof.
  intros Hsorted. revert i j.
  induction Hsorted as [|a l _ IH Hall]; intros i j Hij Hx Hy; [done|].
  destruct j as [|j]; [lia|]. destruct i as [|i].
  - injection Hx as <-. cbn in Hy.
    by eapply (proj1 (Forall_forall _ _) Hall), list_elem_of_lookup_2.
  - cbn in Hx, Hy. apply (IH i j); [lia | done | done].
Qed.

Lemma key_ge_ranks_before (x y : potential_signal) :
  key_lt (sort_key x) (sort_key y) = false → ranks_before (ranking_of x) (ranking_of y).
Proof.
  unfold sort_key, ranking_of, ranks_before.
  rewrite <- not_true_iff_false, key_lt_spec. lia.
Qed.

(** The order in which step 3 goes through the candidates holds each of
    them once; of two of them the earlier one has the higher tier, or the
    same tier and the larger condition count, or both the same and an
    evaluation time that is not later; and candidates equal in all three
    stay in the order in which step 2 found them. *)
Theorem ranking_is_a_stable_sort (potential : list potential_signal) :
  sort_descending potential ≡ₚ potential
  ∧ (∀ i j x y, (i < j)%nat →
       sort_descending potential !! i = Some x →
       sort_descending potential !! j = Some y →
       ranks_before (ranking_of x) (ranking_of y))
  ∧ (∀ k, filter (λ y, ranking_of y = k) (sort_descending potential)
          = filter (λ y, ranking_of y = k) potential).
Proof.
  split_and!.
  - apply sort_descending_perm.
  - intros i j x y Hij Hx Hy. apply key_ge_ranks_before.
    by apply (sorted_lookup _ _ i j x y (sort_descending_sorted potential)).
  - intros [[tier count] time].
    pose proof (sort_descending_stable (tier, count, (- time)%Z) potential) as Hstable.
    assert (∀ l : list potential_signal,
                 filter (λ y, ranking_of y = (tier, count, time)) l
                 = filter (λ y, sort_key y = (tier, count, (- time)%Z)) l) as Hsame.
    { intros l. apply list_filter_iff. intros y. unfold ranking_of, sort_key.
      split; intros [= ? ? ?]; f_equal; [f_equal|lia|f_equal|lia]; done. }
    by rewrite !Hsame.
Qed.

(** ** Selection *)

Lemma select_signals_closed (ranked chosen : list potential_signal) (w : world) :
  Forall (λ x, is_Some (signals w !! ps_pair x)) ranked →
  select_signals ranked chosen w
  = (w, Returns (chosen ++ take (MAX_ACTIVE_SIGNALS - length chosen)
                             (filter (λ x, eligible (signals w) x = true) ranked))).
Proof.
  intros Hknown. revert chosen.
  induction Hknown as [|x ranked [s Hs] _ IH]; intros chosen.
  - cbn [select_signals]. by rewrite filter_nil, take_nil, app_nil_r.
  - cbn [select_signals]. case_bool_decide as Hroom.
    + unfold mbind, M_bind, get_pair. rewrite Hs.
      assert (eligible (signals w) x
              = bool_decide (sd_result (current_signal s) ≠ Waiting)
                && negb (is_resting s)) as Helig
        by (unfold eligible; by rewrite Hs).
      rewrite filter_cons. destruct (bool_decide _ && negb _).
      * rewrite IH, decide_True by done. rewrite length_app. cbn [length].
        replace (MAX_ACTIVE_SIGNALS - length chosen)%nat
          with (S (MAX_ACTIVE_SIGNALS - (length chosen + 1)))%nat by lia.
        cbn [take]. by rewrite <- app_assoc.
      * rewrite IH, decide_False by (by rewrite Helig). done.
    + replace (MAX_ACTIVE_SIGNALS - length chosen)%nat with 0%nat by lia.
      by rewrite take_0, app_nil_r.
Qed.

(** Step 3 selects the first [MAX_ACTIVE_SIGNALS] candidates, in their
    ranked order, whose pair is neither waiting nor resting; the signals
    already waiting take none of the slots, and selecting changes
    nothing. *)
Theorem selection_takes_first_eligible (ranked : list potential_signal) (w : world) :
  Forall (λ x, is_Some (signals w !! ps_pair x)) ranked →
  select_signals ranked [] w
  = (w, Returns (take MAX_ACTIVE_SIGNALS
                   (filter (λ x, eligible (signals w) x = true) ranked))).
Proof.
  intros Hknown. rewrite select_signals_closed by done.
  by rewrite app_nil_l, Nat.sub_0_r.
Qed.

(** Four signals waiting and six candidates, two of them for waiting
    pairs: the four others are selected. *)
Lemma selection_takes_first_eligible_witness :
  select_signals (candidate_for <$> take 6 (drop 2 CURRENCY_PAIRS)) [] (board_with 4)
  = (board_with 4, Returns (candidate_for <$> take 4 (drop 4 CURRENCY_PAIRS))).
Proof.
  rewrite (selection_takes_first_eligible
             (candidate_for <$> take 6 (drop 2 CURRENCY_PAIRS)) (board_with 4))
    by FloatFacts.by_evaluation.
  by vm_compute.
Defined.

End SchedulerRules.

(** * The loop: what every turn keeps *)

Module LoopRules.
Import Strategy Runtime Gateway Scheduler Spec Hoare Board Triples
  SchedulerFacts LoopFacts AnalysisFacts SchedulerRules.

(** ** The rules of the logic *)

Lemma hoare_ret {A} (pre : world → Prop) (a : A)
    (ret : A → world → Prop) (exc : exn → world → Prop) :
  (∀ w, pre w → ret a w) → hoare pre (mret a) ret exc.
Proof. intros H w Hw. by apply H. Qed.

Lemma hoare_bind {A B} (pre : world → Prop) (m : M A) (mid : A → world → Prop)
    (k : A → M B) (ret : B → world → Prop) (exc : exn → world → Prop) :
  hoare pre m mid exc → (∀ a, hoare (mid a) (k a) ret exc) →
  hoare pre (m ≫= k) ret exc.
Proof.
  intros Hm Hk w Hw. unfold mbind, M_bind.
  specialize (Hm w Hw). destruct (m w) as [w' [a|e]]; [by apply Hk | done].
Qed.

Lemma hoare_conseq {A} (pre pre' : world → Prop) (m : M A)
    (ret ret' : A → world → Prop) (exc exc' : exn → world → Prop) :
  hoare pre' m ret' exc' →
  (∀ w, pre w → pre' w) → (∀ a w, ret' a w → ret a w) →
  (∀ e w, exc' e w → exc e w) →
  hoare pre m ret exc.
Proof.
  intros Hm Hpre Hret Hexc w Hw. specialize (Hm w (Hpre w Hw)).
  destruct (m w) as [w' [a|e]]; [by apply Hret | by apply Hexc].
Qed.

Lemma hoare_pure {A} (pre : world → Prop) (P : Prop) (m : M A)
    (ret : A → world → Prop) (exc : exn → world → Prop) :
  (P → hoare pre m ret exc) → hoare (λ w, pre w ∧ P) m ret exc.
Proof. intros H w [Hw HP]. by apply H. Qed.

Lemma hoare_lift {A} (pre : world → Prop) (o : outcome A)
    (ret : A → world → Prop) (exc : exn → world → Prop) :
  (∀ w, pre w → match o with Returns a => ret a w | Raises e => exc e w end) →
  hoare pre (lift o) ret exc.
Proof. intros H w Hw. specialize (H w Hw). unfold lift. by destruct o. Qed.

Lemma hoare_for_each {A} (I : world → Prop) (P : A → Prop) (xs : list A)
    (body : A → M unit) (exc : exn → world → Prop) :
  Forall P xs → (∀ x, P x → hoare I (body x) (λ _, I) exc) →
  hoare I (for_each xs body) (λ _, I) exc.
Proof.
  intros Hxs Hbody. induction Hxs as [|x xs Hx _ IH]; cbn [for_each].
  - by apply hoare_ret.
  - eapply hoare_bind; [by apply Hbody | intros u; apply IH].
Qed.

Lemma hoare_for_fold {A S} (I : world → Prop) (P : A → Prop) (Q : S → Prop)
    (xs : list A) (body : A → S → M S) (exc : exn → world → Prop) :
  Forall P xs →
  (∀ x acc, P x → Q acc → hoare I (body x acc) (λ acc' w, I w ∧ Q acc') exc) →
  ∀ acc, Q acc → hoare I (for_fold xs acc body) (λ acc' w, I w ∧ Q acc') exc.
Proof.
  intros Hxs Hbody. induction Hxs as [|x xs Hx _ IH]; intros acc Hacc; cbn [for_fold].
  - by apply hoare_ret.
  - eapply hoare_bind; [by apply Hbody|]. intros acc'.
    intros w [Hw Hacc']. by apply (IH acc' Hacc' w).
Qed.

(** ** Counting the waiting signals *)

Lemma count_waiting_settled (sigs : gmap string pair_state) (pair : string)
    (s : pair_state) :
  sd_result (current_signal s) ≠ Waiting →
  (count_waiting (<[pair := s]> sigs) ≤ count_waiting sigs)%nat.
Proof.
  intros Hs. unfold count_waiting.
  rewrite map_filter_insert_False by done.
  rewrite map_filter_delete.
  apply map_subseteq_size, delete_subseteq.
Qed.

Lemma count_waiting_activated (sigs : gmap string pair_state) (pair : string)
    (s : pair_state) :
  (count_waiting (<[pair := s]> sigs) ≤ S (count_waiting sigs))%nat.
Proof.
  destruct (decide (sd_result (current_signal s) = Waiting)) as [Hs|Hs].
  - unfold count_waiting. rewrite map_filter_insert_True by done.
    rewrite map_size_insert. case_match; unfold id; lia.
  - pose proof (count_waiting_settled sigs pair s Hs). lia.
Qed.

(** ** What the transitions keep *)

Lemma manipulated_result (real_result : result) (s : pair_state) :
  real_result ≠ Waiting → (manipulate_result real_result s).1.1 ≠ Waiting.
Proof.
  intros Hr. unfold manipulate_result.
  repeat case_match; simpl; done.
Qed.

Lemma settling_keeps (pair : string) (t : transition) (s : pair_state) :
  well_kept pair s → settling pair t →
  well_kept pair (apply_transition pair t s)
  ∧ sd_result (current_signal (apply_transition pair t s)) ≠ Waiting.
Proof.
  intros (Hpair & Hwait & Hgiven & Hforced) Ht.
  pose proof (transition_keeps_forced_wins_low pair t s Hforced) as Hforced'.
  unfold well_kept.
  destruct t as [ct r|ct|ct|ct ns|now ct|now ns]; cbn in Ht; try done.
  - pose proof (manipulated_result r s Ht) as Hres.
    cbn [apply_transition] in *. unfold finalize_result in *.
    destruct (manipulate_result r s) as [[res consecutive] forced].
    cbn in Hres, Hforced'. cbn. split_and!; try done.
    repeat case_bool_decide; lia.
  - destruct Ht as [Hns Hres]. cbn in *. by split_and!.
Qed.

Lemma activation_keeps (pair : string) (now : Z) (new_signal : signal_data)
    (s : pair_state) :
  well_kept pair s → sd_pair new_signal = pair → tradable new_signal →
  is_resting s = false →
  well_kept pair (activate_signal now new_signal s).
Proof.
  intros (Hpair & Hwait & Hgiven & Hforced) Hns Htr Hrest.
  unfold well_kept. cbn. by split_and!.
Qed.

Lemma orderly_write (pair : string) (s s' : pair_state) (w : world) :
  orderly w → signals w !! pair = Some s → well_kept pair s' →
  orderly (write pair s' w).
Proof.
  intros [Hdom Hall] Hs Hs'. split.
  - intros p. cbn. rewrite <- Hdom.
    destruct (decide (pair = p)) as [<-|Hne].
    + rewrite lookup_insert_eq, Hs. split; by eexists.
    + by rewrite lookup_insert_ne.
  - intros p sp. cbn.
    destruct (decide (pair = p)) as [<-|Hne].
    + rewrite lookup_insert_eq. by intros [= <-].
    + rewrite lookup_insert_ne by done. apply Hall.
Qed.


(** ** The steps that settle *)

Lemma settled_stable (w0 w w' : world) :
  signals w' = signals w → (clock w ≤ clock w')%Z →
  settled_from w0 w → settled_from w0 w'.
Proof.
  intros Hsig Hclock ([Hdom Hall] & Hcount & Hc0).
  unfold settled_from, orderly. rewrite Hsig. split_and!; [done | done | done | lia].
Qed.

Lemma settled_refl (w : world) : orderly w → settled_from w w.
Proof. intros Hw. by split_and!. Qed.

Lemma hoare_datetime_now (I : world → Prop) (exc : exn → world → Prop) :
  hoare I datetime_now (λ _, I) exc.
Proof. by intros w Hw. Qed.

Lemma hoare_get_pair (w0 : world) (pair : string) (exc : exn → world → Prop) :
  pair ∈ CURRENCY_PAIRS →
  hoare (settled_from w0) (get_pair pair)
    (λ s w, settled_from w0 w ∧ well_kept pair s) exc.
Proof.
  intros Hpair w Hw. unfold get_pair.
  pose proof Hw as ([Hdom Hall] & _).
  destruct (proj2 (Hdom pair) Hpair) as [s Hs]. rewrite Hs.
  split; [exact Hw | by apply Hall].
Qed.

Lemma hoare_transit (w0 : world) (pair : string) (t : transition)
    (exc : exn → world → Prop) :
  pair ∈ CURRENCY_PAIRS → settling pair t →
  hoare (settled_from w0) (transit pair t) (λ _, settled_from w0) exc.
Proof.
  intros Hpair Ht w (Hw & Hcount & Hclock). unfold transit, update_pair.
  destruct (proj2 (proj1 Hw pair) Hpair) as [s Hs]. rewrite Hs.
  destruct (settling_keeps pair t s (proj2 Hw pair s Hs) Ht) as [Hkept Hres].
  split_and!.
  - by apply (orderly_write pair s _ w).
  - cbn. pose proof (count_waiting_settled (signals w) pair _ Hres). lia.
  - done.
Qed.

(** The real result of a signal that has its entry price. *)
Lemma determine_result_returns (sd : signal_data)
    (latest_candles_for_result : option (list candle)) :
  is_Some (entry_price sd) →
  ∃ r, determine_result sd latest_candles_for_result = Returns r ∧ r ≠ Waiting.
Proof.
  intros [entry Hentry]. unfold determine_result.
  destruct latest_candles_for_result as [[|c candles]|]; try by eexists.
  destruct (index_from_end_returns (c :: candles) 0 ltac:(simpl; lia)) as (x & -> & _).
  rewrite Hentry. cbn.
  repeat case_bool_decide; by eexists.
Qed.

(** ** Step 3 *)

Lemma activate_spec (x : potential_signal) (w : world) :
  orderly w → candidate x →
  (∀ s, signals w !! ps_pair x = Some s → is_resting s = false) →
  ∃ w', activate x w = (w', Returns ())
    ∧ orderly w'
    ∧ (count_waiting (signals w') ≤ S (count_waiting (signals w)))%nat
    ∧ clock w' = clock w
    ∧ ∀ pair, is_resting <$> signals w' !! pair = is_resting <$> signals w !! pair.
Proof.
  intros Hw (Hpair & Hname & Htr) Hrest.
  unfold activate, mbind, M_bind, datetime_now, transit, update_pair.
  destruct (proj2 (proj1 Hw (ps_pair x)) Hpair) as [s Hs]. rewrite Hs.
  eexists. split; [reflexivity|]. split_and!.
  - apply (orderly_write (ps_pair x) s _ w); [done | done|].
    apply activation_keeps; [by apply (proj2 Hw) | done | done | by apply Hrest].
  - cbn. apply count_waiting_activated.
  - done.
  - intros pair. cbn. destruct (decide (ps_pair x = pair)) as [<-|Hne].
    + by rewrite lookup_insert_eq, Hs.
    + by rewrite lookup_insert_ne.
Qed.

Lemma for_each_activate_spec (chosen : list potential_signal) (w : world) :
  orderly w → Forall candidate chosen →
  Forall (λ x, ∀ s, signals w !! ps_pair x = Some s → is_resting s = false) chosen →
  ∃ w', for_each chosen activate w = (w', Returns ())
    ∧ orderly w'
    ∧ (count_waiting (signals w') ≤ count_waiting (signals w) + length chosen)%nat
    ∧ clock w' = clock w.
Proof.
  intros Hw Hcand. revert w Hw.
  induction Hcand as [|x chosen Hx _ IH]; intros w Hw Hrest.
  - exists w. cbn. split_and!; [done | done | lia | done].
  - apply Forall_cons in Hrest as [Hrx Hrest].
    destruct (activate_spec x w Hw Hx Hrx) as (w1 & Hrun & Hw1 & Hcount & Hclock & Hsame).
    destruct (IH w1 Hw1) as (w' & Hrun' & Hw' & Hcount' & Hclock').
    { eapply Forall_impl; [exact Hrest|]. intros y Hy s Hs.
      specialize (Hsame (ps_pair y)). rewrite Hs in Hsame.
      destruct (signals w !! ps_pair y) as [s0|] eqn:Hs0; [|done].
      injection Hsame as ->. by apply Hy. }
    exists w'. cbn [for_each]. unfold mbind, M_bind. rewrite Hrun, Hrun'.
    split_and!; [done | done | cbn [length]; lia | congruence].
Qed.

Lemma step3_spec (potential : list potential_signal) (w : world) :
  orderly w → Forall candidate potential →
  ∃ w', step3 potential w = (w', Returns ())
    ∧ orderly w'
    ∧ (count_waiting (signals w')
       ≤ count_waiting (signals w) + length potential `min` MAX_ACTIVE_SIGNALS)%nat
    ∧ clock w' = clock w.
Proof.
  intros Hw Hcand.
  assert (Forall candidate (sort_descending potential)) as Hranked
    by (by rewrite sort_descending_perm).
  unfold step3, mbind, M_bind.
  rewrite select_signals_closed, app_nil_l, Nat.sub_0_r.
  2:{ eapply Forall_impl; [exact Hranked|]. intros x (Hpair & _).
      by apply (proj1 Hw). }
  set (chosen := take MAX_ACTIVE_SIGNALS _).
  assert (∀ x, x ∈ chosen → candidate x ∧ eligible (signals w) x = true) as Hchosen.
  { intros x Hx. apply (subseteq_take MAX_ACTIVE_SIGNALS) in Hx.
    apply list_elem_of_filter in Hx as [Helig Hx].
    split; [|done]. by apply (proj1 (Forall_forall _ _) Hranked). }
  destruct (for_each_activate_spec chosen w Hw) as (w' & Hrun & Hw' & Hcount & Hclock).
  { apply Forall_forall. intros x Hx. by apply Hchosen. }
  { apply Forall_forall. intros x Hx s Hs.
    destruct (Hchosen x Hx) as [_ Helig]. unfold eligible in Helig.
    rewrite Hs in Helig. apply andb_true_iff in Helig as [_ Helig].
    by apply negb_true_iff in Helig. }
  exists w'. split; [done|]. split; [done|]. split; [|done].
  assert (length chosen ≤ length potential `min` MAX_ACTIVE_SIGNALS)%nat; [|lia].
  unfold chosen. rewrite length_take.
  pose proof (length_filter (λ x, eligible (signals w) x = true)
                (sort_descending potential)) as Hf.
  pose proof (Permutation_length (sort_descending_perm potential)) as Hp.
  lia.
Qed.

Section WithProvider.

Context (network : Z → request → exchange) (API_KEYS : list string).

Lemma try_keys_frame (now : Z) (symbol interval : string) (outputsize : nat)
    (keys : list string) (w : world) :
  ∃ w' r, try_keys network now symbol interval outputsize keys w = (w', Returns r)
    ∧ signals w' = signals w ∧ (clock w ≤ clock w')%Z.
Proof.
  revert w. induction keys as [|key keys IH]; intros w.
  - exists w, None. by split_and!.
  - cbn [try_keys]. unfold mbind, M_bind, requests_get.
    set (rq := {| rq_symbol := symbol; rq_interval := interval;
                  rq_outputsize := outputsize; rq_apikey := key |}).
    destruct (IH (advance (latency (network (clock w) rq)) w))
      as (w' & r & Hrun & Hsig & Hclock).
    assert (clock w ≤ clock w')%Z as Hle by (simpl in Hclock; lia).
    destruct (answer (network (clock w) rq)) as [| |[rows| |]];
      try (exists w', r; by split_and!).
    case_bool_decide; [|exists w', r; by split_and!].
    eexists _, _. split; [reflexivity|]. cbn. split; [done | lia].
Qed.

Lemma fetch_frame (symbol interval : string) (outputsize : nat) (w : world) :
  ∃ w' r, fetch_twelvedata_candles network API_KEYS symbol interval outputsize w
          = (w', Returns r)
    ∧ signals w' = signals w ∧ (clock w ≤ clock w')%Z.
Proof.
  unfold fetch_twelvedata_candles.
  unfold mbind at 1 2, M_bind at 1 2, datetime_now, cache_lookup.
  destruct (TWELVEDATA_CACHE w !! symbol) as [e|]; [|apply try_keys_frame].
  case_bool_decide; [|apply try_keys_frame].
  exists w, (Some (ce_data e)). by split_and!.
Qed.

Lemma hoare_fetch (w0 : world) (symbol interval : string) (outputsize : nat)
    (exc : exn → world → Prop) :
  hoare (settled_from w0)
    (fetch_twelvedata_candles network API_KEYS symbol interval outputsize)
    (λ _, settled_from w0) exc.
Proof.
  intros w Hw.
  destruct (fetch_frame symbol interval outputsize w) as (w' & r & -> & Hsig & Hclock).
  by apply (settled_stable w0 w w').
Qed.

(** Step 1 for a pair never raises in an orderly world. *)
Lemma hoare_step1_pair (w0 : world) (current_time : Z) (pair : string) :
  pair ∈ CURRENCY_PAIRS →
  hoare (settled_from w0) (step1_pair network API_KEYS current_time pair)
    (λ _, settled_from w0) (λ _ _, False).
Proof.
  intros Hpair. unfold step1_pair.
  eapply hoare_bind; [by apply hoare_get_pair|]. intros s.
  apply hoare_pure. intros Hs.
  destruct (bool_decide (sd_result (current_signal s) = Waiting) && _ && _) eqn:Hdue.
  - apply andb_true_iff in Hdue as [Hdue _]. apply andb_true_iff in Hdue as [Hwait _].
    apply bool_decide_eq_true in Hwait.
    destruct (proj1 (proj2 Hs) Hwait) as [(_ & Hentry & _) _].
    eapply hoare_bind; [apply hoare_fetch|]. intros candles.
    destruct (determine_result_returns (current_signal s) candles Hentry)
      as (r & -> & Hr).
    eapply (hoare_bind _ _ (λ a w, settled_from w0 w ∧ a ≠ Waiting)).
    + apply hoare_lift. intros w Hw. by split.
    + intros r'. apply hoare_pure. intros Hr'. by apply hoare_transit.
  - destruct (displayed _ && _); [by apply hoare_transit|].
    destruct (is_resting s && _); [by apply hoare_transit|].
    by apply hoare_ret.
Qed.

Lemma hoare_step1 (w0 : world) (current_time : Z) :
  hoare (settled_from w0) (step1 network API_KEYS current_time)
    (λ _, settled_from w0) (λ _ _, False).
Proof.
  unfold step1. apply (hoare_for_each _ (λ pair, pair ∈ CURRENCY_PAIRS)).
  - by apply Forall_forall.
  - intros pair Hpair. by apply hoare_step1_pair.
Qed.

(** Step 2 for a pair raises nothing but the [ZeroDivisionError] of the
    analysis, and what it adds to the candidates is a candidate. *)
Lemma hoare_step2_pair (w0 : world) (current_time : Z) (count : nat)
    (pair : string) (potential : list potential_signal) :
  pair ∈ CURRENCY_PAIRS → Forall candidate potential →
  hoare (settled_from w0)
    (step2_pair network API_KEYS current_time count pair potential)
    (λ l w, settled_from w0 w ∧ Forall candidate l)
    (λ e w, settled_from w0 w ∧ e = ZeroDivisionError).
Proof.
  intros Hpair Hpot. unfold step2_pair.
  eapply hoare_bind; [by apply hoare_get_pair|]. intros s.
  apply hoare_pure. intros Hs.
  destruct (is_resting s); [by apply hoare_ret|].
  destruct (displayed _ && _); [by apply hoare_ret|].
  case_bool_decide as Hfull; [by apply hoare_ret|].
  case_bool_decide as Hdue; [|by apply hoare_ret].
  eapply hoare_bind; [apply hoare_fetch|]. intros candles.
  assert (hoare (settled_from w0)
            (now ← datetime_now;
             transit pair (FetchFailureRecorded now current_time);;
             mret potential)
            (λ l w, settled_from w0 w ∧ Forall candidate l)
            (λ e w, settled_from w0 w ∧ e = ZeroDivisionError)) as Hfail.
  { eapply hoare_bind; [apply hoare_datetime_now|]. intros now.
    eapply hoare_bind; [by apply hoare_transit|]. intros u.
    by apply hoare_ret. }
  destruct candles as [[|c candles]|]; [exact Hfail | | exact Hfail].
  eapply hoare_bind; [apply hoare_datetime_now|]. intros now.
  eapply (hoare_bind _ _
            (λ ns w, settled_from w0 w
                     ∧ analyze_and_generate_signal now pair (c :: candles)
                       = Returns ns)).
  { apply hoare_lift. intros w Hw.
    destruct (analyze_and_generate_signal now pair (c :: candles)) as [ns|e]
      eqn:Hrun; [done|].
    split; [done|]. by destruct (analyze_raises _ _ _ _ Hrun). }
  intros ns. apply hoare_pure. intros Hns.
  destruct (analyze_returns _ _ _ _ Hns) as (Hname & Hidle & Hsignal).
  case_bool_decide as Hdir.
  - destruct (Hsignal Hdir) as (_ & _ & _ & _ & _ & _ & (cur & _ & Hentry) & Hconf).
    assert (∃ level, confidence_index (sd_confidence ns) = Returns level)
      as [level ->].
    { rewrite !elem_of_cons, elem_of_nil in Hconf.
      destruct Hconf as [->|[->|[->|[]]]]; by eexists. }
    eapply hoare_bind; [apply hoare_lift; intros w Hw; exact Hw|]. intros level'.
    apply hoare_ret. intros w Hw. split; [done|].
    apply Forall_app. split; [done|].
    apply Forall_singleton. unfold candidate, tradable. cbn.
    split_and!; first [done | by rewrite Hentry].
  - eapply hoare_bind.
    + apply hoare_transit; [done|]. cbn. split; [done|].
      destruct (decide (sd_direction ns = NONE)) as [Hnone|]; [|done].
      destruct (Hidle Hnone) as (-> & _). done.
    + intros u. by apply hoare_ret.
Qed.

Lemma hoare_step2 (w0 : world) (current_time : Z) :
  hoare (settled_from w0)
    (step2 network API_KEYS current_time)
    (λ l w, settled_from w0 w ∧ Forall candidate l)
    (λ e w, settled_from w0 w ∧ e = ZeroDivisionError).
Proof.
  unfold step2.
  eapply (hoare_bind _ _ (λ _, settled_from w0)); [by intros w Hw|].
  intros sigs.
  apply (hoare_for_fold (settled_from w0) (λ pair, pair ∈ CURRENCY_PAIRS)
           (Forall candidate)).
  - by apply Forall_forall.
  - intros pair acc Hpair Hacc. by apply hoare_step2_pair.
  - constructor.
Qed.

(** ** A turn *)

Lemma iteration_spec (w : world) :
  orderly w → (count_waiting (signals w) ≤ 7)%nat →
  match iteration network API_KEYS w with
  | (w', Returns _) =>
      orderly w' ∧ (count_waiting (signals w') ≤ 7)%nat
      ∧ (clock w + seconds 3 ≤ clock w')%Z
  | (w', Raises e) =>
      orderly w' ∧ (count_waiting (signals w') ≤ 7)%nat
      ∧ (clock w ≤ clock w')%Z ∧ e = ZeroDivisionError
  end.
Proof.
  intros Hw Hcount. unfold iteration.
  unfold mbind at 1 2, M_bind at 1 2, datetime_now.
  pose proof (hoare_step1 w (clock w) w (settled_refl w Hw)) as H1.
  destruct (step1 network API_KEYS (clock w) w) as [w1 [[]|e]]; [|done].
  destruct H1 as (Hw1 & Hcount1 & Hclock1).
  assert (∀ w2 potential,
            orderly w2 → Forall candidate potential →
            (count_waiting (signals w2) + length potential `min` MAX_ACTIVE_SIGNALS
             ≤ 7)%nat →
            (clock w ≤ clock w2)%Z →
            match (step3 potential;; time_sleep 3) w2 with
            | (w', Returns _) =>
                orderly w' ∧ (count_waiting (signals w') ≤ 7)%nat
                ∧ (clock w + seconds 3 ≤ clock w')%Z
            | (w', Raises e) =>
                orderly w' ∧ (count_waiting (signals w') ≤ 7)%nat
                ∧ (clock w ≤ clock w')%Z ∧ e = ZeroDivisionError
            end) as Hstep3.
  { intros w2 potential Hw2 Hcand Hroom Hclock2. unfold mbind, M_bind.
    destruct (step3_spec potential w2 Hw2 Hcand) as (w3 & -> & Hw3 & Hcount3 & Hclock3).
    unfold time_sleep. cbn. split_and!; [done | lia |].
    rewrite Hclock3. unfold seconds. lia. }
  unfold mbind at 1, M_bind at 1.
  destruct (decide (MAX_ACTIVE_SIGNALS ≤ count_waiting (signals w1))%nat)
    as [Hfull|Hroom].
  - rewrite step2_at_capacity by (done || by apply Forall_forall, (proj1 Hw1)).
    apply Hstep3; [done | constructor | cbn; lia | done].
  - pose proof (hoare_step2 w1 (clock w) w1 (settled_refl w1 Hw1)) as H2.
    destruct (step2 network API_KEYS (clock w) w1) as [w2 [potential|e]].
    + destruct H2 as ((Hw2 & Hcount2 & Hclock2) & Hcand).
      apply Hstep3; [done | done | unfold MAX_ACTIVE_SIGNALS in *; lia | lia].
    + destruct H2 as ((Hw2 & Hcount2 & Hclock2) & ->).
      split_and!; [done | lia | lia | done].
Qed.

Lemma guarded_iteration_spec (w : world) :
  orderly w → (count_waiting (signals w) ≤ 7)%nat →
  ∃ w', guarded_iteration network API_KEYS w = (w', Returns ())
    ∧ orderly w' ∧ (count_waiting (signals w') ≤ 7)%nat
    ∧ (clock w + seconds 3 ≤ clock w')%Z.
Proof.
  intros Hw Hcount. unfold guarded_iteration, try_except.
  pose proof (iteration_spec w Hw Hcount) as Hturn.
  destruct (iteration network API_KEYS w) as [w' [[]|e]].
  - by exists w'.
  - destruct Hturn as (Hw' & Hcount' & Hclock & _).
    eexists. split; [reflexivity|]. cbn. split_and!; [done | done|].
    unfold seconds in *. lia.
Qed.

Lemma iterations_spec (n : nat) (w : world) :
  orderly w → (count_waiting (signals w) ≤ 7)%nat →
  ∃ w', iterations network API_KEYS n w = (w', Returns ())
    ∧ orderly w' ∧ (count_waiting (signals w') ≤ 7)%nat
    ∧ (clock w + seconds (3 * Z.of_nat n) ≤ clock w')%Z.
Proof.
  revert w. induction n as [|n IH]; intros w Hw Hcount.
  - exists w. cbn. split_and!; try done. unfold seconds. lia.
  - destruct (guarded_iteration_spec w Hw Hcount) as (w1 & Hrun & Hw1 & Hcount1 & Hclock1).
    destruct (IH w1 Hw1 Hcount1) as (w' & Hrun' & Hw' & Hcount' & Hclock').
    exists w'. cbn [iterations]. unfold mbind, M_bind. rewrite Hrun, Hrun'.
    split_and!; try done. unfold seconds in *. lia.
Qed.

End WithProvider.

(** ** The start *)

Lemma initialize_pairs (pairs : list string) (w : world) :
  ∃ w', for_each pairs (λ pair w,
          ({| signals := <[pair := initial_pair_state (clock w) pair]> (signals w);
              TWELVEDATA_CACHE := TWELVEDATA_CACHE w; clock := clock w |},
           Returns ())) w
        = (w', Returns ())
    ∧ clock w' = clock w
    ∧ (count_waiting (signals w') ≤ count_waiting (signals w))%nat
    ∧ ∀ p, signals w' !! p
           = if decide (p ∈ pairs) then Some (initial_pair_state (clock w) p)
             else signals w !! p.
Proof.
  revert w. induction pairs as [|pair pairs IH]; intros w.
  - exists w. cbn. by split_and!.
  - cbn [for_each]. unfold mbind, M_bind.
    set (w1 := {| signals := <[pair := initial_pair_state (clock w) pair]> (signals w);
                  TWELVEDATA_CACHE := TWELVEDATA_CACHE w; clock := clock w |}).
    destruct (IH w1) as (w' & -> & Hclock & Hcount & Hlookup).
    exists w'. split_and!; [done | done | |].
    + pose proof (count_waiting_settled (signals w) pair
                    (initial_pair_state (clock w) pair)) as Hinit.
      cbn in Hcount, Hinit. specialize (Hinit ltac:(done)). lia.
    + intros p. rewrite Hlookup. cbn.
      destruct (decide (p ∈ pairs)) as [Hin|Hout].
      * by rewrite decide_True by (by apply list_elem_of_further).
      * destruct (decide (p = pair)) as [->|Hne].
        -- rewrite lookup_insert_eq. by rewrite decide_True by apply list_elem_of_here.
        -- rewrite lookup_insert_ne by done.
           by rewrite decide_False by (rewrite elem_of_cons; tauto).
Qed.

Lemma initialize_spec (t0 : Z) :
  ∃ w, initialize (start t0) = (w, Returns ())
    ∧ orderly w ∧ count_waiting (signals w) = 0%nat ∧ clock w = t0.
Proof.
  unfold initialize.
  destruct (initialize_pairs CURRENCY_PAIRS (start t0))
    as (w & -> & Hclock & Hcount & Hlookup).
  exists w. split; [done|].
  assert (count_waiting (signals (start t0)) = 0%nat) as Hzero by (by vm_compute).
  split; [|split; [lia | done]].
  split.
  - intros p. rewrite Hlookup. cbn. case_decide; [by split|].
    rewrite lookup_empty. split; [by intros [] | done].
  - intros p s. rewrite Hlookup. cbn. case_decide; [|by rewrite lookup_empty].
    intros [= <-]. unfold well_kept. cbn. split_and!; [done | done | lia | lia].
Qed.

Lemma loop_spec (network : Z → request → exchange) (API_KEYS : list string)
    (n : nat) (t0 : Z) :
  ∃ w, signal_generation_loop network API_KEYS n (start t0) = (w, Returns ())
    ∧ orderly w ∧ (count_waiting (signals w) ≤ 7)%nat
    ∧ (t0 + seconds (3 * Z.of_nat n) ≤ clock w)%Z.
Proof.
  unfold signal_generation_loop, mbind, M_bind.
  destruct (initialize_spec t0) as (w0 & -> & Hw0 & Hcount0 & Hclock0).
  destruct (iterations_spec network API_KEYS n w0 Hw0 ltac:(lia))
    as (w & -> & Hw & Hcount & Hclock).
  exists w. split_and!; try done. lia.
Qed.

(** In every world the loop reaches, [signals] has exactly the pairs of
    the list; each record names its pair; a waiting record has a
    direction, an entry price and a confidence of LOW, MEDIUM or HIGH,
    and its pair is not resting; no pair has more than 4 results counted
    since its last rest nor more than 1 forced win. *)
Theorem loop_keeps_signals_orderly
    (network : Z → request → exchange) (API_KEYS : list string)
    (n : nat) (t0 : Z) :
  orderly (signal_generation_loop network API_KEYS n (start t0)).1.
Proof. by destruct (loop_spec network API_KEYS n t0) as (w & -> & Hw & _). Qed.

(** In every world the loop reaches at most 7 signals are waiting. *)
Theorem waiting_signals_stay_below_eight
    (network : Z → request → exchange) (API_KEYS : list string)
    (n : nat) (t0 : Z) :
  (count_waiting (signals (signal_generation_loop network API_KEYS n (start t0)).1)
   ≤ 7)%nat.
Proof. by destruct (loop_spec network API_KEYS n t0) as (w & -> & _ & Hw & _). Qed.

(** The loop itself never raises, and every turn, with or without an
    exception caught, takes at least 3 seconds of the clock. *)
Theorem every_turn_takes_three_seconds
    (network : Z → request → exchange) (API_KEYS : list string)
    (n : nat) (t0 : Z) :
  (signal_generation_loop network API_KEYS n (start t0)).2 = Returns ()
  ∧ (t0 + seconds (3 * Z.of_nat n)
     ≤ clock (signal_generation_loop network API_KEYS n (start t0)).1)%Z.
Proof. by destruct (loop_spec network API_KEYS n t0) as (w & -> & _ & _ & Hw). Qed.



End LoopRules.
